(** * reference_metric.py: coordinate catalog of the NRPy reference metric

    A shallow embedding of [reference_metric()] and [UnitVectors3D()].

    The module keeps its results in module-level lists ([xx], [xxCart],
    [xxSph], [scalefactor_orthog], [xxmin], [xxmax]) that the functions
    read and mutate by index; here they are the fields of a [state] record
    threaded through a small state-and-error monad.

    SymPy expressions are kept as the trees the Python operators build
    ([expr]); their meaning is given by [eval] into the real numbers, and
    [sp.diff] is the textbook symbolic derivative [diff].  SymPy stores
    every expression in a canonical form; two equal trees of the model are
    built by the same operator applications and therefore have the same
    canonical form.  Statements "after simplification" are statements about
    [eval], the semantics that simplification preserves. *)

From Stdlib Require Import Reals RNsatz Lra Lia ZArith List String Ascii Bool.
From Stdlib Require Import DecimalString.
Import ListNotations.

Open Scope string_scope.

(** ** Symbols and expressions *)

(** A SymPy [Symbol]: its name and whether it was created with
    [positive=True].  Two symbols with the same name and different
    assumptions are different symbols, as in SymPy. *)
Record symbol : Type := mkSymbol { name : string; positive : bool }.

Definition symbol_eqb (a b : symbol) : bool :=
  String.eqb (name a) (name b) && Bool.eqb (positive a) (positive b).

(** [sp.symbols(n, positive=p)] for a single name. *)
Definition symbols (n : string) (p : bool) : symbol := mkSymbol n p.

Inductive expr : Type :=
| Sym (s : symbol)
| Int (z : Z)
| Add (a b : expr)
| Sub (a b : expr)
| Mul (a b : expr)
| Div (a b : expr)
| Neg (a : expr)
| Pow (a : expr) (n : Z)
| Exp (a : expr)
| Sin (a : expr)
| Cos (a : expr)
| Sqrt (a : expr)
| Acos (a : expr)
| Atan2 (y x : expr).

Coercion Sym : symbol >-> expr.

Declare Scope expr_scope.
Delimit Scope expr_scope with E.
Bind Scope expr_scope with expr.
Notation "a + b" := (Add a b) : expr_scope.
Notation "a - b" := (Sub a b) : expr_scope.
Notation "a * b" := (Mul a b) : expr_scope.
Notation "a / b" := (Div a b) : expr_scope.
Notation "- a" := (Neg a) : expr_scope.
Notation "a ** n" := (Pow a n) (at level 30, right associativity) : expr_scope.

(** [e.free_symbols], as a list. *)
Fixpoint free_symbols (e : expr) : list symbol :=
  match e with
  | Sym s => [s]
  | Int _ => []
  | Add a b | Sub a b | Mul a b | Div a b | Atan2 a b =>
      free_symbols a ++ free_symbols b
  | Neg a | Pow a _ | Exp a | Sin a | Cos a | Sqrt a | Acos a =>
      free_symbols a
  end.

Definition depends_on (e : expr) (x : symbol) : bool :=
  existsb (symbol_eqb x) (free_symbols e).

(** [e.is_Number]: the expression is a numeric literal. *)
Definition is_Number (e : expr) : bool :=
  match e with Int _ => true | _ => false end.

(** [sp.diff(e, x)]. *)
Fixpoint diff (e : expr) (x : symbol) : expr :=
  match e with
  | Sym s => if symbol_eqb s x then Int 1 else Int 0
  | Int _ => Int 0
  | Add a b => diff a x + diff b x
  | Sub a b => diff a x - diff b x
  | Mul a b => diff a x * b + a * diff b x
  | Div a b => (diff a x * b - a * diff b x) / b ** 2
  | Neg a => - diff a x
  | Pow a n => Int n * a ** (n - 1)%Z * diff a x
  | Exp a => Exp a * diff a x
  | Sin a => Cos a * diff a x
  | Cos a => - Sin a * diff a x
  | Sqrt a => diff a x / (Int 2 * Sqrt a)
  | Acos a => - (diff a x / Sqrt (Int 1 - a ** 2))
  | Atan2 y x0 => (x0 * diff y x - y * diff x0 x) / (x0 ** 2 + y ** 2)
  end%E.

(** ** Meaning of expressions *)

Section Semantics.
Local Open Scope R_scope.

  (** Two-argument arctangent on the reals, the angle of the point
      [(x, y)] in (-PI, PI]. *)
Definition atan2 (y x : R) : R :=
    if Rlt_dec 0 x then atan (y / x)
    else if Rlt_dec x 0 then
           if Rle_dec 0 y then atan (y / x) + PI else atan (y / x) - PI
         else if Rlt_dec 0 y then PI / 2
              else if Rlt_dec y 0 then - (PI / 2) else 0.

Fixpoint eval (env : symbol -> R) (e : expr) : R :=
    match e with
    | Sym s => env s
    | Int z => IZR z
    | Add a b => eval env a + eval env b
    | Sub a b => eval env a - eval env b
    | Mul a b => eval env a * eval env b
    | Div a b => eval env a / eval env b
    | Neg a => - eval env a
    | Pow a n => powerRZ (eval env a) n
    | Exp a => exp (eval env a)
    | Sin a => sin (eval env a)
    | Cos a => cos (eval env a)
    | Sqrt a => sqrt (eval env a)
    | Acos a => acos (eval env a)
    | Atan2 y x => atan2 (eval env y) (eval env x)
    end.

  (** An environment respects the symbols' assumptions when every symbol
      created with [positive=True] has a positive value. *)
Definition respects (env : symbol -> R) : Prop :=
    forall s, positive s = true -> 0 < env s.
End Semantics.

(** ** The module state and its monad *)

(** The module-level variables, with the parameter
    [reference_metric::CoordSystem] of the parameter store. *)
Record state : Type := mkState {
  CoordSystem : string;
  xx : list symbol;
  xxCart : list expr;
  xxSph : list expr;
  scalefactor_orthog : list expr;
  xxmin : list string;
  xxmax : list string
}.

(** How a run ends: normally, by [exit(code)] after printing a line, or
    by an uncaught [IndexError] of a list access out of range. *)
Inductive outcome (A : Type) : Type :=
| Ok (a : A)
| Exit (stdout : string) (code : Z)
| IndexError.
Arguments Ok {A} a.
Arguments Exit {A} stdout code.
Arguments IndexError {A}.

Definition M (A : Type) : Type := state -> outcome (A * state).

Definition ret {A} (a : A) : M A := fun s => Ok (a, s).

Definition bind {A B} (m : M A) (k : A -> M B) : M B :=
  fun s => match m s with
           | Ok (a, s') => k a s'
           | Exit out c => Exit out c
           | IndexError => IndexError
           end.

Declare Scope monad_scope.
Delimit Scope monad_scope with M.
Notation "x <- m ;; k" := (bind m (fun x => k))
  (at level 61, m at next level, right associativity) : monad_scope.
Notation "m ;; k" := (bind m (fun _ => k))
  (at level 61, right associativity) : monad_scope.
Open Scope monad_scope.

(** [print(msg); exit(code)] *)
Definition print_and_exit {A} (msg : string) (code : Z) : M A :=
  fun _ => Exit msg code.

(** [l[i]] for a non-negative literal index. *)
Definition getitem {A} (l : list A) (i : nat) : outcome A :=
  match nth_error l i with
  | Some a => Ok a
  | None => IndexError
  end.

(** The list after [l[i] = v]; nothing is written out of range. *)
Fixpoint list_set {A} (l : list A) (i : nat) (v : A) : list A :=
  match l, i with
  | [], _ => []
  | _ :: t, O => v :: t
  | h :: t, S i' => h :: list_set t i' v
  end.

Definition read {A} (field : state -> list A) (i : nat) : M A :=
  fun s => match getitem (field s) i with
           | Ok a => Ok (a, s)
           | Exit out c => Exit out c
           | IndexError => IndexError
           end.

Definition write {A} (field : state -> list A)
    (upd : list A -> state -> state) (i : nat) (v : A) : M unit :=
  fun s => if Nat.ltb i (List.length (field s))
           then Ok (tt, upd (list_set (field s) i v) s)
           else IndexError.

Definition with_xx (l : list symbol) (s : state) : state :=
  mkState (CoordSystem s) l (xxCart s) (xxSph s) (scalefactor_orthog s)
          (xxmin s) (xxmax s).
Definition with_xxCart (l : list expr) (s : state) : state :=
  mkState (CoordSystem s) (xx s) l (xxSph s) (scalefactor_orthog s)
          (xxmin s) (xxmax s).
Definition with_xxSph (l : list expr) (s : state) : state :=
  mkState (CoordSystem s) (xx s) (xxCart s) l (scalefactor_orthog s)
          (xxmin s) (xxmax s).
Definition with_scalefactor_orthog (l : list expr) (s : state) : state :=
  mkState (CoordSystem s) (xx s) (xxCart s) (xxSph s) l
          (xxmin s) (xxmax s).
Definition with_CoordSystem (n : string) (s : state) : state :=
  mkState n (xx s) (xxCart s) (xxSph s) (scalefactor_orthog s)
          (xxmin s) (xxmax s).

(** [xx[i]], [xxCart[i]], ... as expressions read, and [xx[i] = v], ... *)
Definition get_xx := read xx.
Definition get_xxCart := read xxCart.
Definition get_xxSph := read xxSph.
Definition set_xx := write xx with_xx.
Definition set_xxCart := write xxCart with_xxCart.
Definition set_xxSph := write xxSph with_xxSph.
Definition set_scalefactor_orthog :=
  write scalefactor_orthog with_scalefactor_orthog.

(** ** The collaborators [indexedexp] and [NRPy_param_funcs] *)

(** Modelled from the spec: [ixp.declarerank1(name, DIM)] of the module
    [indexedexp], which is not part of the sources: [DIM] independent
    symbols [name0 .. name(DIM-1)] without assumptions. *)
Definition declarerank1 (n : string) (DIM : nat) : list symbol :=
  map (fun i => symbols (n ++ NilEmpty.string_of_uint (Nat.to_uint i)) false)
      (seq 0 DIM).

(** Modelled from the spec: [ixp.zerorank1(DIM)] of [indexedexp]: [DIM]
    slots holding the number zero. *)
Definition zerorank1 (DIM : nat) : list expr := repeat (Int 0) DIM.

(** Modelled from the spec: [ixp.zerorank2(DIM)] of [indexedexp]: a
    [DIM] by [DIM] table of zeros. *)
Definition zerorank2 (DIM : nat) : list (list expr) :=
  repeat (zerorank1 DIM) DIM.

(** Modelled from the spec: one name of [par.Cparameters("REAL", module,
    names)] of [NRPy_param_funcs]: a named free constant left symbolic,
    without assumptions.  Its registration in the parameter store is not
    modelled. *)
Definition Cparameter (n : string) : symbol := symbols n false.

(** Modelled from the spec:
    [par.parval_from_str("reference_metric::CoordSystem")]. *)
Definition parval_from_str_CoordSystem : M string :=
  fun s => Ok (CoordSystem s, s).

(** The state after the module has been imported (steps 0a and 0b). *)
Definition initial_state : state :=
  mkState "Spherical"
          (declarerank1 "xx" 4) (zerorank1 4) (zerorank1 4) (zerorank1 4)
          [] [].

(** ** [reference_metric()] *)

(** The function assigns [xxmin] and [xxmax] without declaring them
    [global], so Python binds two locals of the call; [None] is a local
    that was never bound. *)
Definition locals : Type := (option (list string) * option (list string))%type.

(** The body of [reference_metric()], returning the values its locals
    [xxmin] and [xxmax] hold when the body ends.  Tuple targets are
    assigned left to right; assignments to names that are overwritten
    before any use ([RMAX], [var1], [var2], the parameter [AA], ...) only
    register parameters and are left out. *)
Definition reference_metric_body : M locals :=
  CoordSystem <- parval_from_str_CoordSystem ;;
  if (CoordSystem =? "Spherical") || (CoordSystem =? "SinhSpherical")
     || (CoordSystem =? "SinhSphericalv2") then
    set_xx 0 (symbols "xx0" true) ;;
    set_xx 1 (symbols "xx1" true) ;;
    r <- get_xx 0 ;;
    th <- get_xx 1 ;;
    ph <- get_xx 2 ;;
    rl <- (if CoordSystem =? "Spherical" then
             ret (Sym r, (Some ["0.0"; "0.0"; "0.0"],
                          Some ["params.RMAX"; "M_PI"; "2.0*M_PI"]))
           else if (CoordSystem =? "SinhSpherical")
                   || (CoordSystem =? "SinhSphericalv2") then
             let AMPL := Cparameter "AMPL" in
             let SINHW := Cparameter "SINHW" in
             let xxmin := ["0.0"; "0.0"; "0.0"] in
             let xxmax := ["1.0"; "M_PI"; "2.0*M_PI"] in
             x0 <- get_xx 0 ;;
             let r := (AMPL * (Exp (x0 / SINHW) - Exp (- x0 / SINHW))
                       / (Exp (Int 1 / SINHW) - Exp (Int (-1) / SINHW)))%E in
             if CoordSystem =? "SinhSphericalv2" then
               let const_dr := Cparameter "const_dr" in
               ret ((AMPL * (const_dr * x0
                             + (Exp (x0 / SINHW) - Exp (- x0 / SINHW))
                               / (Exp (Int 1 / SINHW)
                                  - Exp (Int (-1) / SINHW))))%E,
                    (Some xxmin, Some xxmax))
             else ret (r, (Some xxmin, Some xxmax))
           else ret (Sym r, (None, None))) ;;
    let '(r, loc) := rl in
    set_xxSph 0 r ;;
    set_xxSph 1 (Sym th) ;;
    set_xxSph 2 (Sym ph) ;;
    s0 <- get_xxSph 0 ;; s1 <- get_xxSph 1 ;; s2 <- get_xxSph 2 ;;
    set_xxCart 0 (s0 * Sin s1 * Cos s2)%E ;;
    s0 <- get_xxSph 0 ;; s1 <- get_xxSph 1 ;; s2 <- get_xxSph 2 ;;
    set_xxCart 1 (s0 * Sin s1 * Sin s2)%E ;;
    s0 <- get_xxSph 0 ;; s1 <- get_xxSph 1 ;;
    set_xxCart 2 (s0 * Cos s1)%E ;;
    s0 <- get_xxSph 0 ;; x0 <- get_xx 0 ;;
    set_scalefactor_orthog 0 (diff s0 x0) ;;
    s0 <- get_xxSph 0 ;;
    set_scalefactor_orthog 1 s0 ;;
    s0 <- get_xxSph 0 ;; s1 <- get_xxSph 1 ;;
    set_scalefactor_orthog 2 (s0 * Sin s1)%E ;;
    ret loc
  else if (CoordSystem =? "Cylindrical") || (CoordSystem =? "SinhCylindrical")
          || (CoordSystem =? "SinhCylindricalv2") then
    set_xx 0 (symbols "xx0" true) ;;
    RHOCYL <- get_xx 0 ;;
    PHICYL <- get_xx 1 ;;
    ZCYL <- get_xx 2 ;;
    cl <- (if CoordSystem =? "Cylindrical" then
             ret (Sym RHOCYL, Sym PHICYL, Sym ZCYL,
                  (Some ["0.0"; "0.0"; "params.ZMIN"],
                   Some ["params.RHOMAX"; "2.0*M_PI"; "params.ZMAX"]))
           else if (CoordSystem =? "SinhCylindrical")
                   || (CoordSystem =? "SinhCylindricalv2") then
             let AMPLRHO := Cparameter "AMPLRHO" in
             let SINHWRHO := Cparameter "SINHWRHO" in
             let AMPLZ := Cparameter "AMPLZ" in
             let SINHWZ := Cparameter "SINHWZ" in
             x0 <- get_xx 0 ;;
             let RHOCYL :=
               (AMPLRHO * (Exp (x0 / SINHWRHO) - Exp (- x0 / SINHWRHO))
                / (Exp (Int 1 / SINHWRHO) - Exp (Int (-1) / SINHWRHO)))%E in
             PHICYL <- get_xx 1 ;;
             x2 <- get_xx 2 ;;
             let ZCYL :=
               (AMPLZ * (Exp (x2 / SINHWZ) - Exp (- x2 / SINHWZ))
                / (Exp (Int 1 / SINHWZ) - Exp (Int (-1) / SINHWZ)))%E in
             let xxmin := ["0.0"; "0.0"; "-1.0"] in
             let xxmax := ["1.0"; "2.0*M_PI"; "1.0"] in
             if CoordSystem =? "SinhCylindricalv2" then
               let const_drho := Cparameter "const_drho" in
               let const_dz := Cparameter "const_dz" in
               ret ((AMPLRHO * (const_drho * x0
                                + (Exp (x0 / SINHWRHO) - Exp (- x0 / SINHWRHO))
                                  / (Exp (Int 1 / SINHWRHO)
                                     - Exp (Int (-1) / SINHWRHO))))%E,
                    Sym PHICYL,
                    (AMPLZ * (const_dz * x2
                              + (Exp (x2 / SINHWZ) - Exp (- x2 / SINHWZ))
                                / (Exp (Int 1 / SINHWZ)
                                   - Exp (Int (-1) / SINHWZ))))%E,
                    (Some xxmin, Some xxmax))
             else ret (RHOCYL, Sym PHICYL, ZCYL, (Some xxmin, Some xxmax))
           else ret (Sym RHOCYL, Sym PHICYL, Sym ZCYL, (None, None))) ;;
    let '(RHOCYL, PHICYL, ZCYL, loc) := cl in
    set_xxCart 0 (RHOCYL * Cos PHICYL)%E ;;
    set_xxCart 1 (RHOCYL * Sin PHICYL)%E ;;
    set_xxCart 2 ZCYL ;;
    set_xxSph 0 (Sqrt (RHOCYL ** 2 + ZCYL ** 2))%E ;;
    s0 <- get_xxSph 0 ;;
    set_xxSph 1 (Cos (ZCYL / s0))%E ;;
    set_xxSph 2 PHICYL ;;
    x0 <- get_xx 0 ;;
    set_scalefactor_orthog 0 (diff RHOCYL x0) ;;
    set_scalefactor_orthog 1 RHOCYL ;;
    x2 <- get_xx 2 ;;
    set_scalefactor_orthog 2 (diff ZCYL x2) ;;
    ret loc
  else if (CoordSystem =? "SymTP") || (CoordSystem =? "SinhSymTP") then
    let AW := Cparameter "AW" in
    set_xx 0 (symbols "xx0" true) ;;
    set_xx 1 (symbols "xx1" true) ;;
    let bScale := symbols "bScale" true in
    let xxmin := ["0.0"; "0.0"; "0.0"] in
    let xxmax := ["params.AMAX"; "M_PI"; "2.0*M_PI"] in
    x0 <- get_xx 0 ;;
    AA <- (if CoordSystem =? "SinhSymTP" then
             x0 <- get_xx 0 ;;
             ret ((Exp (x0 / AW) - Exp (- x0 / AW)) / Int 2)%E
           else ret (Sym x0)) ;;
    x1 <- get_xx 1 ;;
    let var1 := (Sqrt (AA ** 2 + (bScale * Sin x1) ** 2))%E in
    let var2 := (Sqrt (AA ** 2 + bScale ** 2))%E in
    x1 <- get_xx 1 ;;
    let RHOSYMTP := (AA * Sin x1)%E in
    PHSYMTP <- get_xx 2 ;;
    x1 <- get_xx 1 ;;
    let ZSYMTP := (var2 * Cos x1)%E in
    x1 <- get_xx 1 ;; x2 <- get_xx 2 ;;
    set_xxCart 0 (AA * Sin x1 * Cos x2)%E ;;
    x1 <- get_xx 1 ;; x2 <- get_xx 2 ;;
    set_xxCart 1 (AA * Sin x1 * Sin x2)%E ;;
    x1 <- get_xx 1 ;;
    set_xxCart 2 (var2 * Cos x1)%E ;;
    set_xxSph 0 (Sqrt (RHOSYMTP ** 2 + ZSYMTP ** 2))%E ;;
    s0 <- get_xxSph 0 ;;
    set_xxSph 1 (Cos (ZSYMTP / s0))%E ;;
    set_xxSph 2 (Sym PHSYMTP) ;;
    x0 <- get_xx 0 ;;
    set_scalefactor_orthog 0 (diff AA x0 * var1 / var2)%E ;;
    set_scalefactor_orthog 1 var1 ;;
    x1 <- get_xx 1 ;;
    set_scalefactor_orthog 2 (AA * Sin x1)%E ;;
    ret (Some xxmin, Some xxmax)
  else if CoordSystem =? "Cartesian" then
    let xxmin := ["params.xmin"; "params.ymin"; "params.zmin"] in
    let xxmax := ["params.xmax"; "params.ymax"; "params.zmax"] in
    x0 <- get_xx 0 ;; set_xxCart 0 (Sym x0) ;;
    x1 <- get_xx 1 ;; set_xxCart 1 (Sym x1) ;;
    x2 <- get_xx 2 ;; set_xxCart 2 (Sym x2) ;;
    x0 <- get_xx 0 ;; x1 <- get_xx 1 ;; x2 <- get_xx 2 ;;
    set_xxSph 0 (Sqrt (x0 ** 2 + x1 ** 2 + x2 ** 2))%E ;;
    x2 <- get_xx 2 ;; s0 <- get_xxSph 0 ;;
    set_xxSph 1 (Cos (x2 / s0))%E ;;
    x1 <- get_xx 1 ;; x0 <- get_xx 0 ;;
    set_xxSph 2 (Atan2 x1 x0) ;;
    set_scalefactor_orthog 0 (Int 1) ;;
    set_scalefactor_orthog 1 (Int 1) ;;
    set_scalefactor_orthog 2 (Int 1) ;;
    ret (Some xxmin, Some xxmax)
  else
    print_and_exit ("CoordSystem == " ++ CoordSystem ++ " is not supported.") 1.

(** A call of [reference_metric()]: the module state it leaves.  The
    locals end with the call. *)
Definition reference_metric (s : state) : outcome state :=
  match reference_metric_body s with
  | Ok (_, s') => Ok s'
  | Exit out c => Exit out c
  | IndexError => IndexError
  end.

(** Modelled from the spec: [SetActiveCoordinateSystem(name)], the
    operation of the catalog: the caller stores [name] in the parameter
    [reference_metric::CoordSystem] and calls [reference_metric()]. *)
Definition SetActiveCoordinateSystem (n : string) (s : state) : outcome state :=
  reference_metric (with_CoordSystem n s).

(** The domain bounds of the selection, as the call computes them. *)
Definition domain_bounds (n : string) (s : state) : outcome locals :=
  match reference_metric_body (with_CoordSystem n s) with
  | Ok (loc, _) => Ok loc
  | Exit out c => Exit out c
  | IndexError => IndexError
  end.

(** The enumerated tag [CoordinateSystemName]. *)
Definition supported : list string :=
  ["Spherical"; "SinhSpherical"; "SinhSphericalv2";
   "Cylindrical"; "SinhCylindrical"; "SinhCylindricalv2";
   "SymTP"; "SinhSymTP"; "Cartesian"].

(** ** [UnitVectors3D()] *)

(** [for x in l: acc = body(x, acc)] *)
Fixpoint for_each {A S} (l : list A) (body : A -> S -> M S) (acc : S) : M S :=
  match l with
  | [] => ret acc
  | a :: t => acc' <- body a acc ;; for_each t body acc'
  end.

(** [range(n)] *)
Definition range (n : nat) : list nat := seq 0 n.

(** [t[i][j]] and [t[i][j] = v] on the local table, which is 3 by 3 and
    only indexed below 3. *)
Definition table_get (t : list (list expr)) (i j : nat) : expr :=
  nth j (nth i t []) (Int 0).
Definition table_set (t : list (list expr)) (i j : nat) (v : expr)
  : list (list expr) :=
  list_set t i (list_set (nth i t []) j v).

Section UnitVectors.
  (** [sp.simplify], SymPy's heuristic simplifier, is a parameter. *)
Variable simplify : expr -> expr.

Definition UnitVectors3D : M (list (list expr)) :=
    let xxhats3D := zerorank2 3 in
    for_each (range 3) (fun i xxhats3D =>
      let norm := Int 0 in
      nx <- for_each (range 3) (fun j '(norm, xxhats3D) =>
              c <- get_xxCart j ;;
              x <- get_xx i ;;
              let numer := diff c x in
              let norm := (norm + numer ** 2)%E in
              ret (norm, table_set xxhats3D i j numer))
            (norm, xxhats3D) ;;
      let '(norm, xxhats3D) := nx in
      let norm := simplify (Sqrt (simplify norm)) in
      for_each (range 3) (fun j xxhats3D =>
        ret (table_set xxhats3D i j (table_get xxhats3D i j / norm)%E))
        xxhats3D)
      xxhats3D.
End UnitVectors.

(** * Definitions used to state the results *)

(** ** States the program can be in *)

(** The states the module can be in: the one left by the import, and
    those left by calls that returned. *)
Inductive reachable : state -> Prop :=
| reach_import : reachable initial_state
| reach_call (n : string) (s s' : state) :
    reachable s -> SetActiveCoordinateSystem n s = Ok s' -> reachable s'.

(** In every such state the four arrays have their four slots, [xx]
    holds the symbols [xx0 .. xx3] (the first two possibly with the
    positivity assumption), the fourth slot of the three expression arrays
    is zero, and the module-level bounds are empty. *)
Definition canonical (s : state) : Prop :=
  exists p0 p1 c0 c1 c2 h0 h1 h2 f0 f1 f2,
    s = mkState (CoordSystem s)
          [symbols "xx0" p0; symbols "xx1" p1;
           symbols "xx2" false; symbols "xx3" false]
          [c0; c1; c2; Int 0] [h0; h1; h2; Int 0] [f0; f1; f2; Int 0]
          [] [].

(** The nine comparisons of [reference_metric()] all fail. *)
Definition unsupported (n : string) : Prop :=
  (n =? "Spherical") = false /\ (n =? "SinhSpherical") = false /\
  (n =? "SinhSphericalv2") = false /\ (n =? "Cylindrical") = false /\
  (n =? "SinhCylindrical") = false /\ (n =? "SinhCylindricalv2") = false /\
  (n =? "SymTP") = false /\ (n =? "SinhSymTP") = false /\
  (n =? "Cartesian") = false.

(** One goal per supported name. *)
Ltac supported_cases H :=
  cbn in H;
  repeat match type of H with
  | _ \/ _ => destruct H as [<-|H]
  end; [.. | contradiction].

(** Replaces a canonical state by its explicit form. *)
Ltac canonical_state s :=
  match goal with
  | C : canonical s |- _ =>
      destruct C as (?p0 & ?p1 & ?c0 & ?c1 & ?c2 & ?h0 & ?h1 & ?h2
                     & ?f0 & ?f1 & ?f2 & C);
      destruct s as [?cs ?lx ?lc ?lh ?lf ?mn ?mx];
      cbn [CoordSystem] in C; injection C as -> -> -> -> -> ->
  end.

(** ** Names for the expressions of the catalog *)

(** The symbols the branches store in [xx]. *)
Definition xx0p : symbol := symbols "xx0" true.
Definition xx1p : symbol := symbols "xx1" true.
Definition xx2s : symbol := symbols "xx2" false.
Definition xx3s : symbol := symbols "xx3" false.

(** The sinh law of the radial, cylindrical-radius and height
    coordinates, [A*(exp(x/W) - exp(-x/W))/(exp(1/W) - exp(-1/W))]. *)
Definition sinh_law (A W x : symbol) : expr :=
  (A * (Exp (x / W) - Exp (- x / W))
   / (Exp (Int 1 / W) - Exp (Int (-1) / W)))%E.

(** Its second version with the linear term [c*x]. *)
Definition sinh_law_v2 (A W c x : symbol) : expr :=
  (A * (c * x + (Exp (x / W) - Exp (- x / W))
                / (Exp (Int 1 / W) - Exp (Int (-1) / W))))%E.

(** [AA] of SinhSymTP, [(exp(x/W) - exp(-x/W))/2]. *)
Definition sinh_half (W x : symbol) : expr :=
  ((Exp (x / W) - Exp (- x / W)) / Int 2)%E.

(** The systems whose polar angle is computed from the height and the
    radius. *)
Definition derived_angle_systems : list string :=
  ["Cylindrical"; "SinhCylindrical"; "SinhCylindricalv2";
   "SymTP"; "SinhSymTP"; "Cartesian"].

Section Environments.
Local Open Scope R_scope.

(** Every symbol has the value 1. *)
Definition env_ones : symbol -> R := fun _ => 1.

(** As [env_ones], but the parameter [p] is 0. *)
Definition env_param_zero (p : string) : symbol -> R :=
  fun s => if (name s =? p)%string && negb (positive s) then 0 else 1.

(** A point of the equatorial plane: [xx1] is PI/2 and [xx2] is 0. *)
Definition env_height_zero : symbol -> R :=
  fun s => if (name s =? "xx1")%string then PI / 2
           else if (name s =? "xx2")%string && negb (positive s) then 0
                else 1.

(** A point with [xx1] = 3 PI / 2. *)
Definition env_three_half_pi : symbol -> R :=
  fun s => if (name s =? "xx1")%string then 3 * (PI / 2) else 1.
End Environments.

(** The states the branches leave, as functions of the radial, height
    and [AA] expressions. *)
Definition spherical_selection (n : string) (r : expr) : state :=
  mkState n [xx0p; xx1p; xx2s; xx3s]
    [(r * Sin xx1p * Cos xx2s)%E; (r * Sin xx1p * Sin xx2s)%E;
     (r * Cos xx1p)%E; Int 0]
    [r; Sym xx1p; Sym xx2s; Int 0]
    [diff r xx0p; r; (r * Sin xx1p)%E; Int 0] [] [].

Definition cylindrical_selection (n : string) (p1 : bool) (rho z : expr)
  : state :=
  let x1 := symbols "xx1" p1 in
  mkState n [xx0p; x1; xx2s; xx3s]
    [(rho * Cos x1)%E; (rho * Sin x1)%E; z; Int 0]
    [Sqrt (rho ** 2 + z ** 2);
     Cos (z / Sqrt (rho ** 2 + z ** 2)); Sym x1; Int 0]
    [diff rho xx0p; rho; diff z xx2s; Int 0] [] [].

Definition symtp_selection (n : string) (AA : expr) : state :=
  let bScale := symbols "bScale" true in
  let var1 := (Sqrt (AA ** 2 + (bScale * Sin xx1p) ** 2))%E in
  let var2 := (Sqrt (AA ** 2 + bScale ** 2))%E in
  mkState n [xx0p; xx1p; xx2s; xx3s]
    [(AA * Sin xx1p * Cos xx2s)%E; (AA * Sin xx1p * Sin xx2s)%E;
     (var2 * Cos xx1p)%E; Int 0]
    [Sqrt ((AA * Sin xx1p) ** 2 + (var2 * Cos xx1p) ** 2);
     Cos (var2 * Cos xx1p
          / Sqrt ((AA * Sin xx1p) ** 2 + (var2 * Cos xx1p) ** 2));
     Sym xx2s; Int 0]
    [(diff AA xx0p * var1 / var2)%E; var1; (AA * Sin xx1p)%E; Int 0] [] [].

Definition cartesian_selection (p0 p1 : bool) : state :=
  let x0 := symbols "xx0" p0 in
  let x1 := symbols "xx1" p1 in
  mkState "Cartesian" [x0; x1; xx2s; xx3s]
    [Sym x0; Sym x1; Sym xx2s; Int 0]
    [Sqrt (x0 ** 2 + x1 ** 2 + xx2s ** 2);
     Cos (xx2s / Sqrt (x0 ** 2 + x1 ** 2 + xx2s ** 2));
     Atan2 x1 x0; Int 0]
    [Int 1; Int 1; Int 1; Int 0] [] [].

(** ** The metric of a selection *)

Section MetricDefinitions.
Local Open Scope R_scope.
Variable env : symbol -> R.

(** The value of [diff(xxCart[j], xx[i])]. *)
Definition jacobian (s : state) (i j : nat) : R :=
  eval env (diff (nth j (xxCart s) (Int 0)) (nth i (xx s) xx3s)).

(** The dot product of two vectors with components 0, 1 and 2. *)
Definition dot3 (u v : nat -> R) : R :=
  u 0%nat * v 0%nat + u 1%nat * v 1%nat + u 2%nat * v 2%nat.

(** The Euclidean norm of the derivative of
    [(xxCart[0], xxCart[1], xxCart[2])] with respect to [xx[i]]. *)
Definition row_norm (s : state) (i : nat) : R :=
  sqrt (dot3 (jacobian s i) (jacobian s i)).

(** The value of [scalefactor_orthog[i]]. *)
Definition scale_factor (s : state) (i : nat) : R :=
  eval env (nth i (scalefactor_orthog s) (Int 0)).

(** The derivatives with respect to two different coordinates are
    orthogonal. *)
Definition orthogonal_rows (s : state) : Prop :=
  forall i k, (i < 3)%nat -> (k < 3)%nat -> i <> k ->
    dot3 (jacobian s i) (jacobian s k) = 0.

(** The square of each scale factor is the squared norm of the
    derivative with respect to its coordinate. *)
Definition squared_scale_factors (s : state) : Prop :=
  forall i, (i < 3)%nat ->
    scale_factor s i * scale_factor s i = dot3 (jacobian s i) (jacobian s i).
End MetricDefinitions.

(** Replaces every [sin a] and [cos a] of the goal by variables related by
    [s*s + c*c = 1]. *)
Ltac trig_vars :=
  repeat match goal with
  | |- context [sin ?a] =>
      let s := fresh "s" in let c := fresh "c" in
      let H := fresh "H" in
      pose proof (sin2_cos2 a) as H; unfold Rsqr in H;
      set (s := sin a) in *; set (c := cos a) in *; clearbody s c
  end.

(** The sum of squares that [UnitVectors3D] accumulates in [norm] for
    row [i]. *)
Definition squared_norm_expr (s : state) (i : nat) : expr :=
  let d j := diff (nth j (xxCart s) (Int 0)) (nth i (xx s) xx3s) in
  (Int 0 + d 0%nat ** 2 + d 1%nat ** 2 + d 2%nat ** 2)%E.

(** The values of row [i] of a table of expressions. *)
Definition row_values (env : symbol -> R) (U : list (list expr)) (i : nat)
  : nat -> R :=
  fun j => eval env (table_get U i j).

(** The quotient of the sinh laws. *)
Definition sinh_ratio (W x : symbol) : expr :=
  ((Exp (x / W) - Exp (- x / W))
   / (Exp (Int 1 / W) - Exp (Int (-1) / W)))%E.

(** ** Domains *)

(** The symbols of [xx]; every other symbol is a free parameter. *)
Definition is_coordinate (x : symbol) : bool :=
  existsb (String.eqb (name x)) ["xx0"; "xx1"; "xx2"; "xx3"].

Section DomainDefinitions.
Local Open Scope R_scope.
Variable env : symbol -> R.

(** Every free parameter has a positive value. *)
Definition parameters_positive : Prop :=
  forall p, is_coordinate p = false -> 0 < env p.

(** The number a bound stands for in the generated C code: a decimal
    literal, [M_PI], [2.0*M_PI], or [params.NAME], the value of the
    parameter [NAME]. *)
Definition bound_value (b : string) : option R :=
  if (b =? "0.0")%string then Some 0
  else if (b =? "1.0")%string then Some 1
  else if (b =? "-1.0")%string then Some (-1)
  else if (b =? "M_PI")%string then Some PI
  else if (b =? "2.0*M_PI")%string then Some (2 * PI)
  else if String.prefix "params." b
       then Some (env (Cparameter
                         (String.substring 7 (String.length b - 7) b)))
       else None.

(** [lo <= x <= hi] *)
Definition in_bounds (x : symbol) (lo hi : string) : Prop :=
  match bound_value lo, bound_value hi with
  | Some a, Some b => a <= env x <= b
  | _, _ => False
  end.

(** Every coordinate lies between its two bounds. *)
Fixpoint in_domain (xs : list symbol) (mn mx : list string) : Prop :=
  match xs, mn, mx with
  | x :: xs', lo :: mn', hi :: mx' =>
      in_bounds x lo hi /\ in_domain xs' mn' mx'
  | _, _, _ => True
  end.
End DomainDefinitions.

(** ** Differentiability *)

(** The environment [env] with the value of [x] replaced by [t]. *)
Definition update (env : symbol -> R) (x : symbol) (t : R) : symbol -> R :=
  fun s => if symbol_eqb s x then t else env s.

(** The points where the rules of [diff] apply: no division by zero, a
    positive argument of the square root, an argument of the arc cosine
    strictly between -1 and 1, and powers with exponent at least 1.  The
    module never differentiates [atan2]. *)
Fixpoint smooth (env : symbol -> R) (e : expr) : Prop :=
  match e with
  | Sym _ | Int _ => True
  | Add a b | Sub a b | Mul a b => smooth env a /\ smooth env b
  | Div a b => smooth env a /\ smooth env b /\ eval env b <> 0%R
  | Neg a | Exp a | Sin a | Cos a => smooth env a
  | Pow a n => smooth env a /\ (1 <= n)%Z
  | Sqrt a => smooth env a /\ (0 < eval env a)%R
  | Acos a => smooth env a /\ (-1 < eval env a < 1)%R
  | Atan2 _ _ => False
  end.

(** ** Definitions for further properties of the module *)

(** The first three slots of the four arrays exist. *)
Definition three_slots (s : state) : Prop :=
  (3 <= List.length (xx s))%nat /\ (3 <= List.length (xxCart s))%nat
  /\ (3 <= List.length (xxSph s))%nat
  /\ (3 <= List.length (scalefactor_orthog s))%nat.

(** The cases of a list with 0, 1, 2 and at least 3 elements. *)
Ltac shape l := destruct l as [|? [|? [|? ?]]].

(** A symbol, an expression and a state without the positivity
    assumptions of the symbols. *)
Definition forget_symbol (x : symbol) : symbol := symbols (name x) false.

Fixpoint forget (e : expr) : expr :=
  match e with
  | Sym s => Sym (forget_symbol s)
  | Int z => Int z
  | Add a b => Add (forget a) (forget b)
  | Sub a b => Sub (forget a) (forget b)
  | Mul a b => Mul (forget a) (forget b)
  | Div a b => Div (forget a) (forget b)
  | Neg a => Neg (forget a)
  | Pow a n => Pow (forget a) n
  | Exp a => Exp (forget a)
  | Sin a => Sin (forget a)
  | Cos a => Cos (forget a)
  | Sqrt a => Sqrt (forget a)
  | Acos a => Acos (forget a)
  | Atan2 y x => Atan2 (forget y) (forget x)
  end.

Definition forget_state (s : state) : state :=
  mkState (CoordSystem s) (map forget_symbol (xx s))
          (map forget (xxCart s)) (map forget (xxSph s))
          (map forget (scalefactor_orthog s)) (xxmin s) (xxmax s).

(** All the expressions a state holds. *)
Definition components (s : state) : list expr :=
  xxCart s ++ xxSph s ++ scalefactor_orthog s.

(** Every coordinate symbol that occurs in an expression of the state is
    one of [xx[0]], [xx[1]], [xx[2]] as [xx] holds them. *)
Definition current_coordinates_only (s : state) : bool :=
  forallb (fun e =>
    forallb (fun x => negb (is_coordinate x)
                      || existsb (symbol_eqb x) (firstn 3 (xx s)))
            (free_symbols e))
    (components s).

(** The value of [xxCart[j]]. *)
Definition cart_value (env : symbol -> R) (s : state) (j : nat) : R :=
  eval env (nth j (xxCart s) (Int 0)).
(** The value of [xxSph[j]]. *)
Definition sph_value (env : symbol -> R) (s : state) (j : nat) : R :=
  eval env (nth j (xxSph s) (Int 0)).

(** The radial law of a name of the spherical group, the radius and
    height laws of a name of the cylindrical group, and [AA] of a name of
    the SymTP group. *)
Definition radius_of (n : string) : expr :=
  if n =? "Spherical" then Sym xx0p
  else if n =? "SinhSpherical"
       then sinh_law (Cparameter "AMPL") (Cparameter "SINHW") xx0p
       else sinh_law_v2 (Cparameter "AMPL") (Cparameter "SINHW")
              (Cparameter "const_dr") xx0p.

Definition rho_of (n : string) : expr :=
  if n =? "Cylindrical" then Sym xx0p
  else if n =? "SinhCylindrical"
       then sinh_law (Cparameter "AMPLRHO") (Cparameter "SINHWRHO") xx0p
       else sinh_law_v2 (Cparameter "AMPLRHO") (Cparameter "SINHWRHO")
              (Cparameter "const_drho") xx0p.

Definition height_of (n : string) : expr :=
  if n =? "Cylindrical" then Sym xx2s
  else if n =? "SinhCylindrical"
       then sinh_law (Cparameter "AMPLZ") (Cparameter "SINHWZ") xx2s
       else sinh_law_v2 (Cparameter "AMPLZ") (Cparameter "SINHWZ")
              (Cparameter "const_dz") xx2s.

Definition AA_of (n : string) : expr :=
  if n =? "SinhSymTP" then sinh_half (Cparameter "AW") xx0p else Sym xx0p.

(** The names of the three groups of branches. *)
Definition spherical_systems : list string :=
  ["Spherical"; "SinhSpherical"; "SinhSphericalv2"].
Definition cylindrical_systems : list string :=
  ["Cylindrical"; "SinhCylindrical"; "SinhCylindricalv2"].
Definition symtp_systems : list string := ["SymTP"; "SinhSymTP"].

(** The matrices of unit vectors that the comments of the four groups of
    branches record as [xxhat]. *)
Definition xxhat_spherical (s : state) : list (list expr) :=
  let th := nth 1 (xxSph s) (Int 0) in
  let ph := nth 2 (xxSph s) (Int 0) in
  [[Sin th * Cos ph; Sin th * Sin ph; Cos th];
   [Cos th * Cos ph; Cos th * Sin ph; - Sin th];
   [- Sin ph; Cos ph; Int 0]]%E.

Definition xxhat_cylindrical (s : state) : list (list expr) :=
  let PHICYL := Sym (nth 1 (xx s) xx3s) in
  [[Cos PHICYL; Sin PHICYL; Int 0];
   [- Sin PHICYL; Cos PHICYL; Int 0];
   [Int 0; Int 0; Int 1]]%E.

Definition xxhat_symtp (n : string) (s : state) : list (list expr) :=
  let x1 := Sym (nth 1 (xx s) xx3s) in
  let x2 := Sym (nth 2 (xx s) xx3s) in
  let bScale := symbols "bScale" true in
  let AA := AA_of n in
  let var1 := (Sqrt (AA ** 2 + (bScale * Sin x1) ** 2))%E in
  let var2 := (Sqrt (AA ** 2 + bScale ** 2))%E in
  [[Sin x1 * Cos x2 * var2 / var1; Sin x1 * Sin x2 * var2 / var1;
    AA * Cos x1 / var1];
   [AA * Cos x1 * Cos x2 / var1; AA * Cos x1 * Sin x2 / var1;
    - Sin x1 * var2 / var1];
   [- Sin x2; Cos x2; Int 0]]%E.

Definition xxhat_cartesian : list (list expr) :=
  [[Int 1; Int 0; Int 0]; [Int 0; Int 1; Int 0]; [Int 0; Int 0; Int 1]].

(** The component [i][k] of the metric that the map from [xx] to
    [xxCart] induces. *)
Definition metric (env : symbol -> R) (s : state) (i k : nat) : R :=
  dot3 (jacobian env s i) (jacobian env s k).

(** The determinant of the Jacobian of the map from [xx] to [xxCart]. *)
Definition jacobian_determinant (env : symbol -> R) (s : state) : R :=
  let J (i j : nat) := jacobian env s i j in
  (J 0%nat 0%nat * (J 1%nat 1%nat * J 2%nat 2%nat
                    - J 1%nat 2%nat * J 2%nat 1%nat)
   - J 0%nat 1%nat * (J 1%nat 0%nat * J 2%nat 2%nat
                      - J 1%nat 2%nat * J 2%nat 0%nat)
   + J 0%nat 2%nat * (J 1%nat 0%nat * J 2%nat 1%nat
                      - J 1%nat 1%nat * J 2%nat 0%nat))%R.

(** ** Symbols, derivatives and values: basic facts *)

Lemma symbol_eqb_eq (a b : symbol) : symbol_eqb a b = true <-> a = b.
Proof.
  destruct a as [na pa], b as [nb pb]; unfold symbol_eqb; cbn.
  rewrite andb_true_iff, String.eqb_eq, Bool.eqb_true_iff.
  split; [intros [-> ->]; reflexivity | intros H; inversion H; auto].
Qed.

Lemma symbol_eqb_refl (a : symbol) : symbol_eqb a a = true.
Proof. apply symbol_eqb_eq; reflexivity. Qed.

Lemma symbol_eqb_sym (a b : symbol) : symbol_eqb a b = symbol_eqb b a.
Proof.
  destruct (symbol_eqb a b) eqn:E.
  - apply symbol_eqb_eq in E; subst; symmetry; apply symbol_eqb_refl.
  - destruct (symbol_eqb b a) eqn:E'; [|reflexivity].
    apply symbol_eqb_eq in E'; subst.
    rewrite symbol_eqb_refl in E; discriminate.
Qed.

Lemma depends_on_app_false (l1 l2 : list symbol) (x : symbol) :
  existsb (symbol_eqb x) (l1 ++ l2) = false ->
  existsb (symbol_eqb x) l1 = false /\ existsb (symbol_eqb x) l2 = false.
Proof. rewrite existsb_app; apply orb_false_iff. Qed.

Section ValueFacts.
Local Open Scope R_scope.
Variable env : symbol -> R.

Lemma powerRZ_2 (x : R) : powerRZ x 2 = x * x.
Proof. simpl; ring. Qed.

Lemma powerRZ_1 (x : R) : powerRZ x 1 = x.
Proof. simpl; ring. Qed.

(** The derivative with respect to a symbol that does not occur in the
    expression has the value zero. *)
Lemma eval_diff_indep (e : expr) (x : symbol) :
  depends_on e x = false -> eval env (diff e x) = 0.
Proof.
  unfold depends_on.
  induction e; cbn [free_symbols diff eval]; intros H;
    try (apply depends_on_app_false in H; destruct H as [H1 H2]);
    try rewrite (IHe H); try rewrite (IHe1 H1); try rewrite (IHe2 H2);
    try (unfold Rdiv; ring).
  - cbn in H. rewrite orb_false_r in H.
    rewrite symbol_eqb_sym, H. reflexivity.
Qed.
End ValueFacts.

(** ** The invariant of reachable states *)

Lemma name_cases (n : string) : In n supported \/ unsupported n.
Proof.
  unfold unsupported, supported.
  repeat match goal with
  | |- context [String.eqb n ?lit] =>
      destruct (String.eqb_spec n lit) as [->|?];
      [left; cbn; tauto|]
  end.
  right; repeat split.
Qed.

Lemma unsupported_not_in (n : string) : unsupported n <-> ~ In n supported.
Proof.
  split.
  - intros U H. unfold unsupported in U. cbn in H.
    repeat match goal with
    | H : _ \/ _ |- _ => destruct H as [<-|H]
    end; try contradiction; cbn in U; intuition discriminate.
  - intros H. destruct (name_cases n); [contradiction|assumption].
Qed.

Lemma reference_metric_body_unsupported (n : string) (s : state) :
  unsupported n ->
  reference_metric_body (with_CoordSystem n s)
  = Exit ("CoordSystem == " ++ n ++ " is not supported.") 1%Z.
Proof.
  intros (E1 & E2 & E3 & E4 & E5 & E6 & E7 & E8 & E9).
  unfold reference_metric_body, bind, parval_from_str_CoordSystem.
  cbn [with_CoordSystem CoordSystem].
  rewrite E1, E2, E3, E4, E5, E6, E7, E8, E9. reflexivity.
Qed.

Lemma canonical_step (n : string) (s s' : state) :
  canonical s -> SetActiveCoordinateSystem n s = Ok s' -> canonical s'.
Proof.
  intros C H. canonical_state s.
  destruct (name_cases n) as [S|U].
  - supported_cases S; vm_compute in H; injection H as <-;
      unfold canonical; cbn [CoordSystem]; repeat eexists.
  - unfold SetActiveCoordinateSystem, reference_metric in H.
    rewrite (reference_metric_body_unsupported _ _ U) in H. discriminate.
Qed.

Lemma reachable_canonical (s : state) : reachable s -> canonical s.
Proof.
  induction 1 as [|n s s' _ IH H].
  - unfold canonical; cbn [CoordSystem]. repeat eexists.
  - exact (canonical_step n s s' IH H).
Qed.

Lemma supported_returns (n : string) (s : state) :
  In n supported -> canonical s ->
  exists s', SetActiveCoordinateSystem n s = Ok s'.
Proof.
  intros S C. canonical_state s.
  supported_cases S; vm_compute; eexists; reflexivity.
Qed.


(** ** Real arithmetic and the laws *)

Section LawFacts.
Local Open Scope R_scope.
Variable env : symbol -> R.

Lemma Rinv_sq_cancel (x : R) : x * / (x * x) = / x.
Proof.
  destruct (Req_dec x 0) as [->|H].
  - rewrite Rmult_0_l, Rinv_0. reflexivity.
  - field. exact H.
Qed.

Lemma Rdiv_half_half (x y : R) : (x / 2) / (y / 2) = x / y.
Proof.
  unfold Rdiv. rewrite Rinv_mult, Rinv_inv.
  replace (x * / 2 * (/ y * 2)) with (x * / y * (2 * / 2)) by ring.
  rewrite Rinv_r by lra. ring.
Qed.

Lemma eval_sinh_law (A W x : symbol) :
  eval env (sinh_law A W x)
  = env A * sinh (env x / env W) / sinh (1 / env W).
Proof.
  unfold sinh_law, sinh. cbn [eval].
  replace (- env x / env W) with (- (env x / env W)) by (unfold Rdiv; ring).
  replace (-1 / env W) with (- (1 / env W)) by (unfold Rdiv; ring).
  set (X := exp (env x / env W) - exp (- (env x / env W))).
  set (Y := exp (1 / env W) - exp (- (1 / env W))).
  replace (env A * (X / 2) / (Y / 2)) with (env A * ((X / 2) / (Y / 2)))
    by (unfold Rdiv; ring).
  rewrite Rdiv_half_half. unfold Rdiv. ring.
Qed.

Lemma eval_diff_sinh_law (A W x : symbol) :
  symbol_eqb A x = false -> symbol_eqb W x = false ->
  eval env (diff (sinh_law A W x) x)
  = env A * cosh (env x / env W) / (env W * sinh (1 / env W)).
Proof.
  intros HA HW.
  unfold sinh_law, sinh, cosh. cbn [eval diff].
  rewrite HA, HW, symbol_eqb_refl.
  cbn [eval]. rewrite !powerRZ_2.
  replace (- env x / env W) with (- (env x / env W)) by (unfold Rdiv; ring).
  replace (-1 / env W) with (- (1 / env W)) by (unfold Rdiv; ring).
  set (e1 := exp (env x / env W)). set (e2 := exp (- (env x / env W))).
  set (D := exp (1 / env W) - exp (- (1 / env W))).
  unfold Rdiv. rewrite !Rinv_mult, Rinv_inv.
  transitivity
    (env A * (e1 + e2) * (env W * (/ env W * / env W)) * (D * (/ D * / D))).
  - ring.
  - rewrite <- !Rinv_mult. rewrite !Rinv_sq_cancel.
    replace (env A * ((e1 + e2) * / 2) * (/ env W * (/ D * 2)))
      with (env A * (e1 + e2) * / env W * / D * (2 * / 2)) by ring.
    rewrite Rinv_r by lra. ring.
Qed.

Lemma sinh_pos (t : R) : 0 < t -> 0 < sinh t.
Proof. intros H. rewrite <- sinh_0. apply sinh_lt. exact H. Qed.

Lemma sinh_nonneg (t : R) : 0 <= t -> 0 <= sinh t.
Proof.
  intros [H| <-]; [left; apply sinh_pos; exact H | rewrite sinh_0; lra].
Qed.

Lemma cosh_pos (t : R) : 0 < cosh t.
Proof.
  unfold cosh. pose proof (exp_pos t). pose proof (exp_pos (- t)). lra.
Qed.
End LawFacts.

Lemma respects_env_ones : respects env_ones.
Proof. intros s _. unfold env_ones. lra. Qed.

Lemma respects_env_param_zero (p : string) : respects (env_param_zero p).
Proof.
  intros [n q] H. cbn in H. subst q. unfold env_param_zero. cbn.
  rewrite andb_false_r. lra.
Qed.

Lemma respects_env_height_zero : respects env_height_zero.
Proof.
  intros [n q] H. cbn in H. subst q. unfold env_height_zero. cbn.
  destruct (n =? "xx1").
  - apply PI2_RGT_0.
  - rewrite andb_false_r. lra.
Qed.

Lemma respects_env_three_half_pi : respects env_three_half_pi.
Proof.
  intros [n q] _. unfold env_three_half_pi. cbn.
  destruct (n =? "xx1"); [pose proof PI_RGT_0|]; lra.
Qed.

Lemma cos_not_acos_at_zero (env : symbol -> R) (z r : expr) :
  eval env z = 0%R ->
  eval env (Cos (z / r)) <> eval env (Acos (z / r)).
Proof.
  intros H. cbn [eval]. rewrite H. unfold Rdiv.
  rewrite Rmult_0_l, cos_0, acos_0. pose proof PI2_1. lra.
Qed.

(** ** Selecting a coordinate system: structure of the results *)


(** C7: a name outside the supported set makes the call print
    "CoordSystem == <name> is not supported." and exit with status 1,
    which leaves no selected system behind; a name of the set makes the
    call return, with that name selected. *)
Theorem C7_unsupported_name_exits (n : string) (s : state) :
  reachable s ->
  (~ In n supported ->
   SetActiveCoordinateSystem n s
   = Exit ("CoordSystem == " ++ n ++ " is not supported.") 1%Z)
  /\ (In n supported ->
      exists s', SetActiveCoordinateSystem n s = Ok s' /\ CoordSystem s' = n).
Proof.
  intros R. split.
  - intros U. apply unsupported_not_in in U.
    unfold SetActiveCoordinateSystem, reference_metric.
    rewrite (reference_metric_body_unsupported _ _ U). reflexivity.
  - intros S. apply reachable_canonical in R. canonical_state s.
    supported_cases S; eexists; split;
      try (vm_compute; reflexivity); reflexivity.
Qed.

Lemma C7_unsupported_name_exits_witness :
  reachable initial_state
  /\ ~ In "NotARealSystem" supported
  /\ SetActiveCoordinateSystem "NotARealSystem" initial_state
     = Exit "CoordSystem == NotARealSystem is not supported." 1%Z.
Proof.
  assert (U : ~ In "NotARealSystem" supported).
  { cbn. intros H.
    repeat match type of H with
    | _ \/ _ => destruct H as [H|H]; [discriminate H|]
    end.
    exact H. }
  split; [exact reach_import|]. split; [exact U|].
  exact (proj1 (C7_unsupported_name_exits "NotARealSystem" initial_state
                  reach_import) U).
Defined.

(** C6: after selecting "Cartesian", [xxCart[i]] is the symbol [xx[i]]
    itself for i = 0, 1, 2 and the three scale factors are the number 1. *)
Theorem C6_cartesian_identity (s : state) :
  reachable s ->
  exists s' x0 x1 x2,
    SetActiveCoordinateSystem "Cartesian" s = Ok s'
    /\ firstn 3 (xx s') = [x0; x1; x2]
    /\ firstn 3 (xxCart s') = [Sym x0; Sym x1; Sym x2]
    /\ firstn 3 (scalefactor_orthog s') = [Int 1; Int 1; Int 1].
Proof.
  intros R. apply reachable_canonical in R. canonical_state s.
  vm_compute. do 4 eexists. repeat split.
Qed.

Lemma C6_cartesian_identity_witness :
  reachable initial_state
  /\ exists s' x0 x1 x2,
       SetActiveCoordinateSystem "Cartesian" initial_state = Ok s'
       /\ firstn 3 (xx s') = [x0; x1; x2]
       /\ firstn 3 (xxCart s') = [Sym x0; Sym x1; Sym x2]
       /\ firstn 3 (scalefactor_orthog s') = [Int 1; Int 1; Int 1].
Proof.
  split; [exact reach_import|].
  exact (C6_cartesian_identity initial_state reach_import).
Defined.

(** C9: a second call with the same name right after the first leaves
    the state, hence [xx], [xxCart], [xxSph] and [scalefactor_orthog],
    exactly as the first call left it. *)
Theorem C9_same_name_twice (n : string) (s : state) :
  reachable s -> In n supported ->
  exists s1,
    SetActiveCoordinateSystem n s = Ok s1
    /\ SetActiveCoordinateSystem n s1 = Ok s1.
Proof.
  intros R S. apply reachable_canonical in R. canonical_state s.
  supported_cases S; eexists; split;
    try (vm_compute; reflexivity).
Qed.

Lemma C9_same_name_twice_witness :
  reachable initial_state /\ In "Spherical" supported
  /\ exists s1,
       SetActiveCoordinateSystem "Spherical" initial_state = Ok s1
       /\ SetActiveCoordinateSystem "Spherical" s1 = Ok s1.
Proof.
  assert (S : In "Spherical" supported) by (cbn; tauto).
  split; [exact reach_import|]. split; [exact S|].
  exact (C9_same_name_twice "Spherical" initial_state reach_import S).
Defined.

(** C10: in every state the program can be in, before and after any
    call, slot 3 of [xxCart], [xxSph] and [scalefactor_orthog] is the zero
    it was initialised with; a call never writes it. *)
Theorem C10_fourth_slot_zero (n : string) (s s' : state) :
  reachable s -> SetActiveCoordinateSystem n s = Ok s' ->
  (nth_error (xxCart s') 3 = nth_error (xxCart s) 3
   /\ nth_error (xxSph s') 3 = nth_error (xxSph s) 3
   /\ nth_error (scalefactor_orthog s') 3
      = nth_error (scalefactor_orthog s) 3)
  /\ nth_error (xxCart s') 3 = Some (Int 0)
  /\ nth_error (xxSph s') 3 = Some (Int 0)
  /\ nth_error (scalefactor_orthog s') 3 = Some (Int 0)
  /\ List.length (xxCart s') = 4%nat
  /\ List.length (xxSph s') = 4%nat
  /\ List.length (scalefactor_orthog s') = 4%nat.
Proof.
  intros R H.
  pose proof (reachable_canonical _ R) as C.
  pose proof (canonical_step _ _ _ C H) as C'.
  clear H R.
  canonical_state s. canonical_state s'. cbn. repeat split.
Qed.

Lemma C10_fourth_slot_zero_witness :
  exists s',
    reachable initial_state
    /\ SetActiveCoordinateSystem "SinhSymTP" initial_state = Ok s'
    /\ nth_error (xxCart s') 3 = Some (Int 0)
    /\ nth_error (xxSph s') 3 = Some (Int 0)
    /\ nth_error (scalefactor_orthog s') 3 = Some (Int 0).
Proof.
  destruct (SetActiveCoordinateSystem "SinhSymTP" initial_state)
    as [s'| |] eqn:E; try (vm_compute in E; discriminate E).
  exists s'. split; [exact reach_import|]. split; [reflexivity|].
  destruct (C10_fourth_slot_zero "SinhSymTP" initial_state s'
              reach_import E) as (_ & H1 & H2 & H3 & _).
  repeat split; assumption.
Defined.

(** C4: in the Cylindrical, SinhCylindrical(v2), SymTP, SinhSymTP and
    Cartesian branches the polar angle [xxSph[1]] is the expression
    [cos(z/r)], with [z] the Cartesian height [xxCart[2]] and [r] the
    derived radius [xxSph[0]]; it is not [acos(z/r)], neither as an
    expression nor in value: in the equatorial plane it is 1, not PI/2. *)
Theorem C4_polar_angle_is_cos (n : string) (s : state) :
  reachable s -> In n derived_angle_systems ->
  exists s' z r,
    SetActiveCoordinateSystem n s = Ok s'
    /\ nth_error (xxCart s') 2 = Some z
    /\ nth_error (xxSph s') 0 = Some r
    /\ nth_error (xxSph s') 1 = Some (Cos (z / r))
    /\ Cos (z / r) <> Acos (z / r)
    /\ exists env,
         respects env
         /\ eval env (Cos (z / r)) <> eval env (Acos (z / r)).
Proof.
  intros R S. apply reachable_canonical in R. canonical_state s.
  supported_cases S.
  all: eexists _, _, _; split; [vm_compute; reflexivity|].
  all: cbn [xxCart xxSph nth_error].
  all: do 3 (split; [reflexivity|]).
  all: split; [discriminate|].
  all: exists env_height_zero; split; [apply respects_env_height_zero|].
  all: apply cos_not_acos_at_zero.
  all: cbn [eval]; unfold env_height_zero; cbn.
  all: try reflexivity.
  all: try (rewrite cos_PI2; ring).
  all: replace (0 / 1)%R with 0%R by lra;
       replace (- 0 / 1)%R with 0%R by lra; unfold Rdiv; ring.
Qed.

Lemma C4_polar_angle_is_cos_witness :
  reachable initial_state /\ In "Cartesian" derived_angle_systems
  /\ exists s' z r,
       SetActiveCoordinateSystem "Cartesian" initial_state = Ok s'
       /\ nth_error (xxCart s') 2 = Some z
       /\ nth_error (xxSph s') 0 = Some r
       /\ nth_error (xxSph s') 1 = Some (Cos (z / r)).
Proof.
  assert (S : In "Cartesian" derived_angle_systems) by (cbn; tauto).
  split; [exact reach_import|]. split; [exact S|].
  destruct (C4_polar_angle_is_cos "Cartesian" initial_state reach_import S)
    as (s' & z & r & H1 & H2 & H3 & H4 & _).
  exists s', z, r. repeat split; assumption.
Defined.

(** C5: for SinhSpherical the radius [xxSph[0]] is
    [AMPL*(exp(xx0/SINHW) - exp(-xx0/SINHW))/(exp(1/SINHW) - exp(-1/SINHW))],
    whose value is [AMPL*sinh(xx0/SINHW)/sinh(1/SINHW)]; the scale factors
    are [(dr/dxx0, r, r*sin(xx1))]; and [scalefactor_orthog[0]] is not a
    number: it contains the symbols [AMPL] and [SINHW], its value is
    [AMPL*cosh(xx0/SINHW)/(SINHW*sinh(1/SINHW))], and that value is not
    the same at all points. *)
Theorem C5_sinhspherical_radius (s : state) :
  reachable s ->
  let AMPL := Cparameter "AMPL" in
  let SINHW := Cparameter "SINHW" in
  let r := sinh_law AMPL SINHW xx0p in
  exists s',
    SetActiveCoordinateSystem "SinhSpherical" s = Ok s'
    /\ firstn 3 (xxSph s') = [r; Sym xx1p; Sym xx2s]
    /\ firstn 3 (scalefactor_orthog s') = [diff r xx0p; r; (r * Sin xx1p)%E]
    /\ (forall env,
          eval env r
          = (env AMPL * sinh (env xx0p / env SINHW) / sinh (1 / env SINHW))%R)
    /\ (forall env,
          eval env (diff r xx0p)
          = (env AMPL * cosh (env xx0p / env SINHW)
             / (env SINHW * sinh (1 / env SINHW)))%R)
    /\ In AMPL (free_symbols (diff r xx0p))
    /\ In SINHW (free_symbols (diff r xx0p))
    /\ is_Number (diff r xx0p) = false
    /\ ~ (exists c : R,
            forall env, respects env -> eval env (diff r xx0p) = c).
Proof.
  intros R AMPL SINHW r. apply reachable_canonical in R. canonical_state s.
  eexists. split; [vm_compute; reflexivity|].
  split; [reflexivity|]. split; [reflexivity|].
  split; [intros env; apply eval_sinh_law|].
  assert (D : forall env,
            eval env (diff r xx0p)
            = (env AMPL * cosh (env xx0p / env SINHW)
               / (env SINHW * sinh (1 / env SINHW)))%R)
    by (intros env; apply eval_diff_sinh_law; reflexivity).
  split; [exact D|].
  split; [vm_compute; tauto|]. split; [vm_compute; tauto|].
  split; [reflexivity|].
  intros (c & Hc).
  pose proof (Hc env_ones respects_env_ones) as H1.
  pose proof (Hc (env_param_zero "AMPL") (respects_env_param_zero _)) as H0.
  rewrite D in H1, H0. unfold env_ones in H1.
  unfold env_param_zero in H0. cbn in H0.
  rewrite <- H0 in H1. clear H0 Hc.
  replace (1 / 1)%R with 1%R in H1 by lra.
  pose proof (cosh_pos 1) as Hc. pose proof (sinh_pos 1 Rlt_0_1) as Hs.
  assert (0 < 1 * cosh 1 / (1 * sinh 1))%R.
  { apply Rdiv_lt_0_compat; lra. }
  unfold Rdiv in H1 at 2. rewrite !Rmult_0_l in H1. lra.
Qed.

Lemma C5_sinhspherical_radius_witness :
  reachable initial_state
  /\ exists s',
       SetActiveCoordinateSystem "SinhSpherical" initial_state = Ok s'
       /\ nth_error (xxSph s') 0
          = Some (sinh_law (Cparameter "AMPL") (Cparameter "SINHW") xx0p).
Proof.
  split; [exact reach_import|].
  destruct (C5_sinhspherical_radius initial_state reach_import)
    as (s' & H1 & H2 & _).
  exists s'. split; [exact H1|].
  destruct (xxSph s') as [|a l]; [discriminate H2|].
  cbn in H2. injection H2 as -> _. reflexivity.
Defined.

(** The bounds [xxmin] and [xxmax] that a call computes are bound to
    locals of the call: the module-level lists of the same names stay
    empty in every state the program can be in. *)
Lemma module_bounds_stay_empty (s : state) :
  reachable s -> xxmin s = [] /\ xxmax s = [].
Proof.
  intros R. apply reachable_canonical in R. canonical_state s.
  split; reflexivity.
Qed.

Lemma computed_bounds_of_spherical :
  domain_bounds "Spherical" initial_state
  = Ok (Some ["0.0"; "0.0"; "0.0"], Some ["params.RMAX"; "M_PI"; "2.0*M_PI"]).
Proof. reflexivity. Qed.

(** C3, counterexample: selecting "Cartesian" after "Spherical" leaves
    the symbols [xx0] and [xx1] of [xx] with the positivity assumption of
    the spherical selection, so [xx] and [xxCart] differ from those of a
    Cartesian selection made first. *)
Lemma C3_earlier_selection_observable :
  exists s1 s2 s3,
    SetActiveCoordinateSystem "Spherical" initial_state = Ok s1
    /\ SetActiveCoordinateSystem "Cartesian" s1 = Ok s2
    /\ SetActiveCoordinateSystem "Cartesian" initial_state = Ok s3
    /\ xx s2 <> xx s3
    /\ xxCart s2 <> xxCart s3.
Proof.
  do 3 eexists. do 3 (split; [vm_compute; reflexivity|]).
  cbn [xx xxCart]. split; discriminate.
Qed.

(** C3, as amended: for every supported name the call returns and
    overwrites slots 0, 1 and 2 of [xxCart], [xxSph] and
    [scalefactor_orthog]; what it writes is determined by the name and the
    symbols of [xx] alone, so nothing of the previous contents of these
    arrays remains, and each written component is a proper expression, not
    the zero the slot was initialised with.  In [xx] the call keeps the
    names and only adds positivity assumptions: the Cartesian branch
    leaves [xx] as it is, and a symbol an earlier selection made positive
    stays positive in every branch. *)
Theorem C3_selection_overwrites (n : string) (s1 s2 : state) :
  reachable s1 -> reachable s2 -> In n supported -> xx s1 = xx s2 ->
  exists s',
    SetActiveCoordinateSystem n s1 = Ok s'
    /\ SetActiveCoordinateSystem n s2 = Ok s'
    /\ (forall i, (i < 3)%nat ->
        exists c h f,
          nth_error (xxCart s') i = Some c /\ c <> Int 0
          /\ nth_error (xxSph s') i = Some h /\ h <> Int 0
          /\ nth_error (scalefactor_orthog s') i = Some f /\ f <> Int 0)
    /\ map name (xx s') = map name (xx s1)
    /\ (n = "Cartesian" -> xx s' = xx s1)
    /\ (forall x, In x (xx s1) -> positive x = true -> In x (xx s')).
Proof.
  intros R1 R2 S E.
  apply reachable_canonical in R1, R2.
  canonical_state s1. canonical_state s2. cbn [xx] in E.
  injection E as <- <-.
  destruct p0, p1; supported_cases S.
  all: eexists; split; [vm_compute; reflexivity|].
  all: split; [vm_compute; reflexivity|].
  all: split;
    [intros [|[|[|i]]] Hi; try lia; cbn;
     do 3 eexists; repeat split; discriminate|].
  all: split; [reflexivity|].
  all: split; [intros Hn; try discriminate Hn; reflexivity|].
  all: cbn; intros x Hx Hp;
    repeat match goal with
    | H : _ \/ _ |- _ => destruct H as [<-|H]
    end; try contradiction; try discriminate Hp; tauto.
Qed.

Lemma C3_selection_overwrites_witness :
  reachable initial_state /\ In "Cylindrical" supported
  /\ exists s',
       SetActiveCoordinateSystem "Cylindrical" initial_state = Ok s'
       /\ map name (xx s') = map name (xx initial_state).
Proof.
  assert (S : In "Cylindrical" supported) by (cbn; tauto).
  split; [exact reach_import|]. split; [exact S|].
  destruct (C3_selection_overwrites "Cylindrical" initial_state
              initial_state reach_import reach_import S eq_refl)
    as (s' & H1 & _ & _ & H2 & _ & _).
  exists s'. split; assumption.
Defined.

(** ** The symbolic derivative is the derivative *)

Section DiffSound.
Local Open Scope R_scope.
Variable env : symbol -> R.
Variable x : symbol.

Lemma eval_ext (e1 e2 : symbol -> R) (e : expr) :
  (forall s, e1 s = e2 s) -> eval e1 e = eval e2 e.
Proof.
  intros H. induction e; cbn [eval];
    rewrite ?IHe, ?IHe1, ?IHe2, ?H; reflexivity.
Qed.

Lemma eval_update_same (e : expr) : eval (update env x (env x)) e = eval env e.
Proof.
  apply eval_ext. intros s. unfold update.
  destruct (symbol_eqb s x) eqn:E; [|reflexivity].
  apply symbol_eqb_eq in E. subst. reflexivity.
Qed.

(** The value of [diff e x] is the derivative of the value of [e] along
    [x]. *)
Theorem diff_sound (e : expr) :
  smooth env e ->
  derivable_pt_lim (fun t => eval (update env x t) e) (env x)
                   (eval env (diff e x)).
Proof.
  induction e; cbn [smooth diff eval]; intros S.
  - (* Sym *)
    unfold update. destruct (symbol_eqb s x); cbn [eval].
    + exact (derivable_pt_lim_id (env x)).
    + exact (derivable_pt_lim_const (env s) (env x)).
  - exact (derivable_pt_lim_const (IZR z) (env x)).
  - destruct S as [S1 S2].
    exact (derivable_pt_lim_plus _ _ _ _ _ (IHe1 S1) (IHe2 S2)).
  - destruct S as [S1 S2].
    exact (derivable_pt_lim_minus _ _ _ _ _ (IHe1 S1) (IHe2 S2)).
  - destruct S as [S1 S2].
    pose proof (derivable_pt_lim_mult _ _ _ _ _ (IHe1 S1) (IHe2 S2)) as H.
    cbv beta in H. rewrite !eval_update_same in H. exact H.
  - destruct S as (S1 & S2 & N).
    assert (N' : eval (update env x (env x)) e2 <> 0)
      by (rewrite eval_update_same; exact N).
    pose proof (derivable_pt_lim_div _ _ _ _ _ (IHe1 S1) (IHe2 S2) N') as H.
    cbv beta in H. rewrite !eval_update_same in H.
    rewrite powerRZ_2.
    replace (eval env e1 * eval env (diff e2 x))
      with (eval env (diff e2 x) * eval env e1) by ring.
    exact H.
  - exact (derivable_pt_lim_opp _ _ _ (IHe S)).
  - destruct S as [S1 Hn].
    destruct n as [|p|p]; try lia.
    pose proof (derivable_pt_lim_comp _ (fun y => y ^ Pos.to_nat p) _ _ _
                  (IHe S1) (derivable_pt_lim_pow _ _)) as H.
    cbv beta in H. rewrite !eval_update_same in H.
    replace (IZR (Z.pos p) * powerRZ (eval env e) (Z.pos p - 1)
             * eval env (diff e x))
      with (INR (Pos.to_nat p) * eval env e ^ Init.Nat.pred (Pos.to_nat p)
            * eval env (diff e x)).
    + exact H.
    + rewrite INR_IZR_INZ, positive_nat_Z. f_equal. f_equal.
      rewrite pow_powerRZ. f_equal. lia.
  - pose proof (derivable_pt_lim_comp _ exp _ _ _
                  (IHe S) (derivable_pt_lim_exp _)) as H.
    cbv beta in H. rewrite !eval_update_same in H. exact H.
  - pose proof (derivable_pt_lim_comp _ sin _ _ _
                  (IHe S) (derivable_pt_lim_sin _)) as H.
    cbv beta in H. rewrite !eval_update_same in H. exact H.
  - pose proof (derivable_pt_lim_comp _ cos _ _ _
                  (IHe S) (derivable_pt_lim_cos _)) as H.
    cbv beta in H. rewrite !eval_update_same in H. exact H.
  - destruct S as [S1 P].
    assert (P' : 0 < eval (update env x (env x)) e)
      by (rewrite eval_update_same; exact P).
    pose proof (derivable_pt_lim_comp _ sqrt _ _ _
                  (IHe S1) (derivable_pt_lim_sqrt _ P')) as H.
    cbv beta in H. rewrite !eval_update_same in H.
    replace (eval env (diff e x) / (2 * sqrt (eval env e)))
      with (/ (2 * sqrt (eval env e)) * eval env (diff e x))
      by (unfold Rdiv; ring).
    exact H.
  - destruct S as [S1 P].
    assert (P' : -1 < eval (update env x (env x)) e < 1)
      by (rewrite eval_update_same; exact P).
    pose proof (derive_pt_eq_1 _ _ _ _ (derive_pt_acos _ P')) as A.
    pose proof (derivable_pt_lim_comp _ acos _ _ _ (IHe S1) A) as H.
    cbv beta in H. rewrite !eval_update_same in H.
    rewrite powerRZ_2.
    replace (- (eval env (diff e x) / sqrt (1 - eval env e * eval env e)))
      with (-1 / sqrt (1 - (eval env e)²) * eval env (diff e x))
      by (unfold Rsqr, Rdiv; ring).
    exact H.
  - destruct S.
Qed.
End DiffSound.

(** In particular the entries of the Jacobian used below are the partial
    derivatives of the Cartesian coordinates. *)
Lemma jacobian_is_derivative (env : symbol -> R) (s : state) (i j : nat) :
  smooth env (nth j (xxCart s) (Int 0)) ->
  derivable_pt_lim
    (fun t => eval (update env (nth i (xx s) xx3s) t)
                   (nth j (xxCart s) (Int 0)))
    (env (nth i (xx s) xx3s))
    (jacobian env s i j).
Proof. intros S. unfold jacobian. apply diff_sound. exact S. Qed.

Lemma exp_difference_pos (w : R) :
  (0 < w -> exp (1 / w) - exp (-1 / w) <> 0)%R.
Proof.
  intros Hw.
  assert (-1 / w < 1 / w)%R.
  { unfold Rdiv. apply Rmult_lt_compat_r; [apply Rinv_0_lt_compat; exact Hw|lra]. }
  pose proof (exp_increasing _ _ H). lra.
Qed.

(** Where the symbols' assumptions hold and the free parameters are
    positive, the Cartesian coordinates of every supported system are
    differentiable in this sense. *)
Lemma selected_smooth (env : symbol -> R) (n : string) (s s' : state) (j : nat) :
  reachable s -> In n supported -> SetActiveCoordinateSystem n s = Ok s' ->
  respects env -> parameters_positive env -> (j < 3)%nat ->
  smooth env (nth j (xxCart s') (Int 0)).
Proof.
  intros R S H He HP Hj. apply reachable_canonical in R. canonical_state s.
  pose proof (He (symbols "bScale" true) eq_refl) as Hb.
  assert (Q : forall a b : R, (0 < b -> 0 < powerRZ a 2 + powerRZ b 2)%R)
    by (intros a b Hb0; rewrite !powerRZ_2; nra).
  destruct j as [|[|[|j]]]; try lia.
  all: supported_cases S; vm_compute in H; injection H as <-.
  all: cbn [xxCart nth smooth eval].
  all: repeat split; try lia; try (apply Q; exact Hb).
  all: try (apply Rgt_not_eq; apply HP; reflexivity).
  all: try (apply exp_difference_pos; apply HP; reflexivity).
  all: lra.
Qed.

(** ** The metric of the selected system *)

Section Metric.
Local Open Scope R_scope.
Variable env : symbol -> R.

Lemma spherical_metric (n : string) (r : expr) :
  depends_on r xx1p = false -> depends_on r xx2s = false ->
  orthogonal_rows env (spherical_selection n r)
  /\ squared_scale_factors env (spherical_selection n r).
Proof.
  intros H1 H2.
  pose proof (eval_diff_indep env r xx1p H1) as D1.
  pose proof (eval_diff_indep env r xx2s H2) as D2.
  split.
  - intros [|[|[|i]]] [|[|[|k]]] Hi Hk Hik; try lia; try congruence.
    all: unfold dot3, jacobian; cbn.
    all: rewrite ?D1, ?D2.
    all: trig_vars.
    all: set (R := eval env r); set (R' := eval env (diff r xx0p)).
    all: clearbody R R'; nsatz.
  - intros [|[|[|i]]] Hi; try lia.
    all: unfold dot3, jacobian, scale_factor; cbn.
    all: rewrite ?D1, ?D2.
    all: trig_vars.
    all: set (R := eval env r); set (R' := eval env (diff r xx0p)).
    all: clearbody R R'; try (rewrite symbol_eqb_refl); nsatz.
Qed.

Lemma cylindrical_metric (n : string) (p1 : bool) (rho z : expr) :
  depends_on rho (symbols "xx1" p1) = false -> depends_on rho xx2s = false ->
  depends_on z xx0p = false -> depends_on z (symbols "xx1" p1) = false ->
  orthogonal_rows env (cylindrical_selection n p1 rho z)
  /\ squared_scale_factors env (cylindrical_selection n p1 rho z).
Proof.
  intros H1 H2 H3 H4.
  pose proof (eval_diff_indep env rho _ H1) as D1.
  pose proof (eval_diff_indep env rho _ H2) as D2.
  pose proof (eval_diff_indep env z _ H3) as D3.
  pose proof (eval_diff_indep env z _ H4) as D4.
  split.
  - intros [|[|[|i]]] [|[|[|k]]] Hi Hk Hik; try lia; try congruence.
    all: unfold dot3, jacobian; destruct p1; cbn.
    all: cbn in D1, D4; rewrite ?D1, ?D2, ?D3, ?D4.
    all: trig_vars.
    all: set (R := eval env rho); set (R' := eval env (diff rho xx0p));
         set (Z' := eval env (diff z xx2s)).
    all: clearbody R R' Z'; nsatz.
  - intros [|[|[|i]]] Hi; try lia.
    all: unfold dot3, jacobian, scale_factor; destruct p1; cbn.
    all: cbn in D1, D4; rewrite ?D1, ?D2, ?D3, ?D4.
    all: trig_vars.
    all: set (R := eval env rho); set (R' := eval env (diff rho xx0p));
         set (Z' := eval env (diff z xx2s)).
    all: clearbody R R' Z'; nsatz.
Qed.

Lemma cartesian_metric (p0 p1 : bool) :
  orthogonal_rows env (cartesian_selection p0 p1)
  /\ squared_scale_factors env (cartesian_selection p0 p1).
Proof.
  split.
  - intros [|[|[|i]]] [|[|[|k]]] Hi Hk Hik; try lia; try congruence.
    all: unfold dot3, jacobian; destruct p0, p1; cbn; ring.
  - intros [|[|[|i]]] Hi; try lia.
    all: unfold dot3, jacobian, scale_factor; destruct p0, p1; cbn; ring.
Qed.

Lemma symtp_metric (n : string) (AA : expr) :
  respects env ->
  depends_on AA xx1p = false -> depends_on AA xx2s = false ->
  orthogonal_rows env (symtp_selection n AA)
  /\ squared_scale_factors env (symtp_selection n AA).
Proof.
  intros He H1 H2.
  pose proof (eval_diff_indep env AA _ H1) as D1.
  pose proof (eval_diff_indep env AA _ H2) as D2.
  pose proof (He (symbols "bScale" true) eq_refl) as Hb.
  split.
  - intros [|[|[|i]]] [|[|[|k]]] Hi Hk Hik; try lia; try congruence.
    all: unfold dot3, jacobian; cbn.
    all: rewrite ?D1, ?D2.
    all: change (Pos.to_nat 2) with 2%nat; change (Pos.to_nat 1) with 1%nat;
         cbn [pow].
    all: set (A := eval env AA); set (A' := eval env (diff AA xx0p));
         set (b := env (symbols "bScale" true)) in *.
    all: assert (Hq : 0 < A * (A * 1) + b * (b * 1)) by nra.
    all: pose proof (sqrt_sqrt _ (Rlt_le _ _ Hq)) as HV.
    all: pose proof (sqrt_lt_R0 _ Hq) as HV0.
    all: set (V := sqrt (A * (A * 1) + b * (b * 1))) in *.
    all: unfold Rdiv; rewrite ?Rinv_mult.
    all: assert (HI : V * / V = 1) by (apply Rinv_r; lra).
    all: assert (Hh : 2 * / 2 = 1) by lra.
    all: set (I := / V) in *; set (h := / 2) in *.
    all: trig_vars.
    all: clearbody A A' b V I h; nsatz.
  - intros [|[|[|i]]] Hi; try lia.
    all: unfold dot3, jacobian, scale_factor; cbn.
    all: rewrite ?D1, ?D2.
    all: change (Pos.to_nat 2) with 2%nat; change (Pos.to_nat 1) with 1%nat;
         cbn [pow].
    all: set (A := eval env AA); set (A' := eval env (diff AA xx0p));
         set (b := env (symbols "bScale" true)) in *.
    all: assert (Hq : 0 < A * (A * 1) + b * (b * 1)) by nra.
    all: pose proof (sqrt_sqrt _ (Rlt_le _ _ Hq)) as HV.
    all: pose proof (sqrt_lt_R0 _ Hq) as HV0.
    all: set (V := sqrt (A * (A * 1) + b * (b * 1))) in *.
    all: assert (Hq1 : 0 <= A * (A * 1)
                        + b * sin (env xx1p) * (b * sin (env xx1p) * 1)) by nra.
    all: pose proof (sqrt_sqrt _ Hq1) as HW.
    all: set (W := sqrt (A * (A * 1)
                         + b * sin (env xx1p) * (b * sin (env xx1p) * 1))) in *.
    all: unfold Rdiv; rewrite ?Rinv_mult.
    all: assert (HI : V * / V = 1) by (apply Rinv_r; lra).
    all: assert (Hh : 2 * / 2 = 1) by lra.
    all: set (I := / V) in *; set (h := / 2) in *.
    all: trig_vars.
    all: clearbody A A' b V W I h; nsatz.
Qed.


Lemma selected_metric (n : string) (s s' : state) :
  reachable s -> In n supported -> SetActiveCoordinateSystem n s = Ok s' ->
  respects env ->
  orthogonal_rows env s' /\ squared_scale_factors env s'.
Proof.
  intros R S H He. apply reachable_canonical in R. canonical_state s.
  supported_cases S; vm_compute in H; injection H as <-.
  - exact (spherical_metric "Spherical" (Sym xx0p) eq_refl eq_refl).
  - exact (spherical_metric "SinhSpherical"
             (sinh_law (Cparameter "AMPL") (Cparameter "SINHW") xx0p)
             eq_refl eq_refl).
  - exact (spherical_metric "SinhSphericalv2"
             (sinh_law_v2 (Cparameter "AMPL") (Cparameter "SINHW")
                (Cparameter "const_dr") xx0p)
             eq_refl eq_refl).
  - exact (cylindrical_metric "Cylindrical" p1 (Sym xx0p) (Sym xx2s)
             eq_refl eq_refl eq_refl eq_refl).
  - exact (cylindrical_metric "SinhCylindrical" p1
             (sinh_law (Cparameter "AMPLRHO") (Cparameter "SINHWRHO") xx0p)
             (sinh_law (Cparameter "AMPLZ") (Cparameter "SINHWZ") xx2s)
             eq_refl eq_refl eq_refl eq_refl).
  - exact (cylindrical_metric "SinhCylindricalv2" p1
             (sinh_law_v2 (Cparameter "AMPLRHO") (Cparameter "SINHWRHO")
                (Cparameter "const_drho") xx0p)
             (sinh_law_v2 (Cparameter "AMPLZ") (Cparameter "SINHWZ")
                (Cparameter "const_dz") xx2s)
             eq_refl eq_refl eq_refl eq_refl).
  - exact (symtp_metric "SymTP" (Sym xx0p) He eq_refl eq_refl).
  - exact (symtp_metric "SinhSymTP" (sinh_half (Cparameter "AW") xx0p)
             He eq_refl eq_refl).
  - exact (cartesian_metric p0 p1).
Qed.
End Metric.

(** C1, counterexample: in Spherical coordinates at [xx1 = 3 PI / 2],
    a positive value, [scalefactor_orthog[2] = xx0*sin(xx1)] is negative
    and so differs from the norm of the derivative of [xxCart] with
    respect to [xx2]. *)
Lemma C1_negative_scale_factor :
  exists s',
    SetActiveCoordinateSystem "Spherical" initial_state = Ok s'
    /\ respects env_three_half_pi
    /\ scale_factor env_three_half_pi s' 2
       <> row_norm env_three_half_pi s' 2.
Proof.
  eexists. split; [vm_compute; reflexivity|].
  split; [apply respects_env_three_half_pi|].
  unfold row_norm.
  match goal with |- _ <> sqrt ?q => pose proof (sqrt_pos q) as Hq end.
  intros E. rewrite <- E in Hq. revert Hq.
  unfold scale_factor. cbn [scalefactor_orthog nth eval].
  unfold env_three_half_pi. cbn. rewrite sin_3PI2. lra.
Qed.

(** C1, as amended: for every supported system and i = 0, 1, 2, at every
    point that respects the positivity assumptions of the symbols, the
    absolute value of [scalefactor_orthog[i]] is the Euclidean norm of the
    derivative of [(xxCart[0], xxCart[1], xxCart[2])] with respect to
    [xx[i]]; the scale factor itself is that norm wherever it is not
    negative. *)
Theorem C1_scale_factor_magnitude
    (n : string) (s s' : state) (env : symbol -> R) (i : nat) :
  reachable s -> In n supported -> SetActiveCoordinateSystem n s = Ok s' ->
  respects env -> (i < 3)%nat ->
  Rabs (scale_factor env s' i) = row_norm env s' i
  /\ ((0 <= scale_factor env s' i)%R ->
      scale_factor env s' i = row_norm env s' i).
Proof.
  intros R S H He Hi.
  destruct (selected_metric env n s s' R S H He) as [_ Q].
  assert (A : Rabs (scale_factor env s' i) = row_norm env s' i).
  { unfold row_norm. rewrite <- (Q i Hi). apply eq_sym, sqrt_Rsqr_abs. }
  split; [exact A|].
  intros P. rewrite <- A. symmetry. apply Rabs_pos_eq. exact P.
Qed.

Lemma C1_scale_factor_magnitude_witness :
  exists s',
    reachable initial_state /\ In "SymTP" supported
    /\ SetActiveCoordinateSystem "SymTP" initial_state = Ok s'
    /\ respects env_ones /\ (0 < 3)%nat
    /\ Rabs (scale_factor env_ones s' 0) = row_norm env_ones s' 0.
Proof.
  assert (S : In "SymTP" supported) by (cbn; tauto).
  destruct (SetActiveCoordinateSystem "SymTP" initial_state)
    as [s'| |] eqn:E; try (vm_compute in E; discriminate E).
  exists s'. split; [exact reach_import|]. split; [exact S|].
  split; [reflexivity|]. split; [exact respects_env_ones|].
  split; [lia|].
  apply (C1_scale_factor_magnitude "SymTP" initial_state s' env_ones 0
           reach_import S E respects_env_ones).
  lia.
Defined.

(** ** Unit vectors *)

Lemma unit_row (a b c : R) :
  (sqrt (a * a + b * b + c * c) <> 0 ->
   let N := sqrt (a * a + b * b + c * c) in
   a / N * (a / N) + b / N * (b / N) + c / N * (c / N) = 1)%R.
Proof.
  intros HN N.
  assert (Hq : (0 <= a * a + b * b + c * c)%R) by nra.
  pose proof (sqrt_sqrt _ Hq) as HS. fold N in HS, HN.
  replace (a / N * (a / N) + b / N * (b / N) + c / N * (c / N))%R
    with ((a * a + b * b + c * c) / (N * N))%R by (field; exact HN).
  rewrite HS. rewrite <- HS. field. nra.
Qed.

Lemma orthogonal_quotients (a b c a' b' c' N N' : R) :
  (a * a' + b * b' + c * c' = 0 ->
   a / N * (a' / N') + b / N * (b' / N') + c / N * (c' / N') = 0)%R.
Proof.
  intros H.
  replace (a / N * (a' / N') + b / N * (b' / N') + c / N * (c' / N'))%R
    with ((a * a' + b * b' + c * c') * (/ N * / N'))%R
    by (unfold Rdiv; ring).
  rewrite H. ring.
Qed.

Section UnitVectorFacts.
(** [sp.simplify] returns an expression with the same value wherever the
    assumptions of the symbols hold. *)
Variable simplify : expr -> expr.
Hypothesis simplify_sound :
  forall env e, respects env -> eval env (simplify e) = eval env e.

(** C2: for every supported system [UnitVectors3D] returns, without
    changing the state, the 3 by 3 table [U] with
    [U[i][j] = diff(xxCart[j], xx[i]) / simplify(sqrt(simplify(norm_i)))],
    [norm_i] the sum of the squares of the three derivatives of row [i];
    at every point that respects the assumptions of the symbols, a row
    whose norm is not zero has squared Euclidean norm 1, and two different
    rows have dot product 0. *)
Theorem C2_unit_vectors (n : string) (s s' : state) :
  reachable s -> In n supported -> SetActiveCoordinateSystem n s = Ok s' ->
  exists U,
    UnitVectors3D simplify s' = Ok (U, s')
    /\ map (@List.length expr) U = [3; 3; 3]%nat
    /\ (forall i j, (i < 3)%nat -> (j < 3)%nat ->
        table_get U i j
        = (diff (nth j (xxCart s') (Int 0)) (nth i (xx s') xx3s)
           / simplify (Sqrt (simplify (squared_norm_expr s' i))))%E)
    /\ (forall env i, respects env -> (i < 3)%nat ->
        row_norm env s' i <> 0%R ->
        dot3 (row_values env U i) (row_values env U i) = 1%R)
    /\ (forall env i k, respects env -> (i < 3)%nat -> (k < 3)%nat ->
        i <> k ->
        dot3 (row_values env U i) (row_values env U k) = 0%R).
Proof.
  intros R S H.
  assert (M : forall env, respects env -> orthogonal_rows env s')
    by (intros env He; exact (proj1 (selected_metric env n s s' R S H He))).
  pose proof (canonical_step _ _ _ (reachable_canonical _ R) H) as C'.
  clear R H. canonical_state s'.
  eexists. split; [vm_compute; reflexivity|].
  split; [reflexivity|]. split; [|split].
  - intros [|[|[|i]]] [|[|[|j]]] Hi Hj; try lia; reflexivity.
  - intros env i He Hi HN.
    destruct i as [|[|[|i]]]; try lia.
    all: unfold row_norm, dot3, jacobian in HN; cbn [nth xxCart xx] in HN.
    all: unfold dot3, row_values, table_get; cbn [nth eval].
    all: rewrite !simplify_sound by exact He; cbn [eval].
    all: rewrite !simplify_sound by exact He; cbn [eval].
    all: rewrite !powerRZ_2, Rplus_0_l.
    all: apply unit_row; exact HN.
  - intros env i k He Hi Hk Hik.
    pose proof (M env He i k Hi Hk Hik) as O.
    destruct i as [|[|[|i]]]; try lia; destruct k as [|[|[|k]]]; try lia;
      try congruence.
    all: unfold dot3, jacobian in O; cbn [nth xxCart xx] in O.
    all: unfold dot3, row_values, table_get; cbn [nth eval].
    all: apply orthogonal_quotients; exact O.
Qed.
End UnitVectorFacts.

Lemma C2_unit_vectors_witness :
  exists s' U,
    (forall env e, respects env -> eval env ((fun e => e) e) = eval env e)
    /\ reachable initial_state /\ In "Spherical" supported
    /\ SetActiveCoordinateSystem "Spherical" initial_state = Ok s'
    /\ UnitVectors3D (fun e => e) s' = Ok (U, s')
    /\ dot3 (row_values env_ones U 0) (row_values env_ones U 1) = 0%R.
Proof.
  assert (S : In "Spherical" supported) by (cbn; tauto).
  assert (I : forall env e,
             respects env -> eval env ((fun e => e) e) = eval env e)
    by reflexivity.
  destruct (SetActiveCoordinateSystem "Spherical" initial_state)
    as [s'| |] eqn:E; try (vm_compute in E; discriminate E).
  destruct (C2_unit_vectors (fun e => e) I "Spherical" initial_state s'
              reach_import S E) as (U & HU & _ & _ & _ & HO).
  exists s', U. split; [exact I|]. split; [exact reach_import|].
  split; [exact S|]. split; [reflexivity|]. split; [exact HU|].
  apply HO; [exact respects_env_ones | lia | lia | lia].
Defined.

(** ** Sign of the scale factors inside the domain *)

Section Nonneg.
Local Open Scope R_scope.
Variable env : symbol -> R.

Lemma eval_sinh_ratio (W x : symbol) :
  eval env (sinh_ratio W x) = sinh (env x / env W) / sinh (1 / env W).
Proof.
  unfold sinh_ratio, sinh. cbn [eval].
  replace (- env x / env W) with (- (env x / env W)) by (unfold Rdiv; ring).
  replace (-1 / env W) with (- (1 / env W)) by (unfold Rdiv; ring).
  symmetry. apply Rdiv_half_half.
Qed.

Lemma eval_diff_sinh_ratio (W x : symbol) :
  symbol_eqb W x = false ->
  eval env (diff (sinh_ratio W x) x)
  = cosh (env x / env W) / (env W * sinh (1 / env W)).
Proof.
  intros HW.
  unfold sinh_ratio, sinh, cosh. cbn [eval diff].
  rewrite HW, symbol_eqb_refl.
  cbn [eval]. rewrite !powerRZ_2.
  replace (- env x / env W) with (- (env x / env W)) by (unfold Rdiv; ring).
  replace (-1 / env W) with (- (1 / env W)) by (unfold Rdiv; ring).
  set (e1 := exp (env x / env W)). set (e2 := exp (- (env x / env W))).
  set (D := exp (1 / env W) - exp (- (1 / env W))).
  unfold Rdiv. rewrite !Rinv_mult, Rinv_inv.
  transitivity
    ((e1 + e2) * (env W * (/ env W * / env W)) * (D * (/ D * / D))).
  - ring.
  - rewrite <- !Rinv_mult. rewrite !Rinv_sq_cancel.
    replace ((e1 + e2) * / 2 * (/ env W * (/ D * 2)))
      with ((e1 + e2) * / env W * / D * (2 * / 2)) by ring.
    rewrite Rinv_r by lra. ring.
Qed.

Lemma sinh_quotient_nonneg (t u : R) :
  0 <= t -> 0 < u -> 0 <= sinh (t / u) / sinh (1 / u).
Proof.
  intros Ht Hu.
  apply Rmult_le_pos.
  - apply sinh_nonneg. apply Rmult_le_pos; [exact Ht|].
    left. apply Rinv_0_lt_compat. exact Hu.
  - left. apply Rinv_0_lt_compat. apply sinh_pos.
    apply Rdiv_lt_0_compat; lra.
Qed.

Lemma cosh_quotient_pos (t u : R) :
  0 < u -> 0 < cosh t / (u * sinh (1 / u)).
Proof.
  intros Hu. apply Rdiv_lt_0_compat; [apply cosh_pos|].
  apply Rmult_lt_0_compat; [exact Hu|].
  apply sinh_pos. apply Rdiv_lt_0_compat; lra.
Qed.

Lemma sinh_law_nonneg (A W x : symbol) :
  0 < env A -> 0 < env W -> 0 <= env x -> 0 <= eval env (sinh_law A W x).
Proof.
  intros HA HW Hx. rewrite eval_sinh_law.
  unfold Rdiv. rewrite Rmult_assoc.
  apply Rmult_le_pos; [lra|]. apply sinh_quotient_nonneg; assumption.
Qed.

Lemma diff_sinh_law_pos (A W x : symbol) :
  symbol_eqb A x = false -> symbol_eqb W x = false ->
  0 < env A -> 0 < env W -> 0 < eval env (diff (sinh_law A W x) x).
Proof.
  intros EA EW HA HW. rewrite eval_diff_sinh_law by assumption.
  unfold Rdiv. rewrite Rmult_assoc.
  apply Rmult_lt_0_compat; [lra|]. apply cosh_quotient_pos; assumption.
Qed.

Lemma sinh_law_v2_nonneg (A W c x : symbol) :
  0 < env A -> 0 < env W -> 0 < env c -> 0 <= env x ->
  0 <= eval env (sinh_law_v2 A W c x).
Proof.
  intros HA HW Hc Hx.
  change (sinh_law_v2 A W c x) with (A * (c * x + sinh_ratio W x))%E.
  cbn [eval]. rewrite eval_sinh_ratio.
  pose proof (sinh_quotient_nonneg (env x) (env W) Hx HW).
  apply Rmult_le_pos; [lra|]. nra.
Qed.

Lemma diff_sinh_law_v2_pos (A W c x : symbol) :
  symbol_eqb A x = false -> symbol_eqb W x = false ->
  symbol_eqb c x = false ->
  0 < env A -> 0 < env W -> 0 < env c ->
  0 < eval env (diff (sinh_law_v2 A W c x) x).
Proof.
  intros EA EW Ec HA HW Hc.
  change (sinh_law_v2 A W c x) with (A * (c * x + sinh_ratio W x))%E.
  cbn [eval diff]. rewrite EA, Ec, symbol_eqb_refl. cbn [eval].
  rewrite eval_diff_sinh_ratio by assumption.
  pose proof (cosh_quotient_pos (env x / env W) (env W) HW).
  nra.
Qed.

Lemma sinh_half_nonneg (W x : symbol) :
  0 < env W -> 0 <= env x -> 0 <= eval env (sinh_half W x).
Proof.
  intros HW Hx. unfold sinh_half. cbn [eval].
  replace (- env x / env W) with (- (env x / env W)) by (unfold Rdiv; ring).
  fold (sinh (env x / env W)). apply sinh_nonneg.
  apply Rmult_le_pos; [exact Hx|]. left. apply Rinv_0_lt_compat. exact HW.
Qed.

Lemma diff_sinh_half_pos (W x : symbol) :
  symbol_eqb W x = false ->
  0 < env W -> 0 < eval env (diff (sinh_half W x) x).
Proof.
  intros EW HW. unfold sinh_half. cbn [eval diff].
  rewrite EW, symbol_eqb_refl. cbn [eval]. rewrite !powerRZ_2.
  pose proof (exp_pos (env x / env W)) as H1.
  pose proof (exp_pos (- env x / env W)) as H2.
  set (e1 := exp (env x / env W)) in *.
  set (e2 := exp (- env x / env W)) in *.
  assert (HI : 0 < / env W) by (apply Rinv_0_lt_compat; exact HW).
  replace (((e1 * ((1 * env W - env x * 0) / (env W * env W)) -
             e2 * ((- (1) * env W - - env x * 0) / (env W * env W))) * 2 -
            (e1 - e2) * 0) / (2 * 2))
    with ((e1 + e2) * / env W * / 2) by (field; lra).
  apply Rmult_lt_0_compat; [|lra].
  apply Rmult_lt_0_compat; lra.
Qed.

Lemma Rdiv_nonneg (a b : R) : 0 <= a -> 0 <= b -> 0 <= a / b.
Proof.
  intros Ha [Hb| <-].
  - apply Rmult_le_pos; [exact Ha|]. left. apply Rinv_0_lt_compat. exact Hb.
  - unfold Rdiv. rewrite Rinv_0. lra.
Qed.

Lemma spherical_nonneg (n : string) (r : expr) (i : nat) :
  0 <= eval env r -> 0 <= eval env (diff r xx0p) -> 0 <= sin (env xx1p) ->
  (i < 3)%nat -> 0 <= scale_factor env (spherical_selection n r) i.
Proof.
  intros Hr Hd Hs Hi. destruct i as [|[|[|i]]]; try lia.
  all: unfold scale_factor; cbn [spherical_selection scalefactor_orthog nth eval].
  - exact Hd.
  - exact Hr.
  - apply Rmult_le_pos; assumption.
Qed.

Lemma cylindrical_nonneg (n : string) (p1 : bool) (rho z : expr) (i : nat) :
  0 <= eval env rho -> 0 <= eval env (diff rho xx0p) ->
  0 <= eval env (diff z xx2s) ->
  (i < 3)%nat -> 0 <= scale_factor env (cylindrical_selection n p1 rho z) i.
Proof.
  intros Hr Hd Hz Hi. destruct i as [|[|[|i]]]; try lia.
  all: unfold scale_factor;
    cbn [cylindrical_selection scalefactor_orthog nth eval]; assumption.
Qed.

Lemma symtp_nonneg (n : string) (AA : expr) (i : nat) :
  0 <= eval env AA -> 0 <= eval env (diff AA xx0p) -> 0 <= sin (env xx1p) ->
  (i < 3)%nat -> 0 <= scale_factor env (symtp_selection n AA) i.
Proof.
  intros Hr Hd Hs Hi. destruct i as [|[|[|i]]]; try lia.
  all: unfold scale_factor;
    cbn [symtp_selection scalefactor_orthog nth eval].
  - apply Rdiv_nonneg; [|apply sqrt_pos].
    apply Rmult_le_pos; [exact Hd | apply sqrt_pos].
  - apply sqrt_pos.
  - apply Rmult_le_pos; assumption.
Qed.

Lemma cartesian_nonneg (p0 p1 : bool) (i : nat) :
  (i < 3)%nat -> 0 <= scale_factor env (cartesian_selection p0 p1) i.
Proof.
  intros Hi. destruct i as [|[|[|i]]]; try lia.
  all: unfold scale_factor;
    cbn [cartesian_selection scalefactor_orthog nth eval]; lra.
Qed.

(** C8: for every supported system and i = 0, 1, 2, the value of
    [scalefactor_orthog[i]] is not negative at every point whose
    coordinates lie within the bounds [xxmin], [xxmax] that the branch
    computes and whose free parameters are positive. *)
Theorem C8_scale_factors_nonnegative
    (n : string) (s s' : state) (mn mx : list string) (i : nat) :
  reachable s -> In n supported -> SetActiveCoordinateSystem n s = Ok s' ->
  domain_bounds n s = Ok (Some mn, Some mx) ->
  parameters_positive env -> in_domain env (xx s') mn mx ->
  (i < 3)%nat ->
  0 <= scale_factor env s' i.
Proof.
  intros R S H HB HP HD Hi. apply reachable_canonical in R.
  canonical_state s.
  supported_cases S; vm_compute in H; injection H as <-;
    vm_compute in HB; injection HB as <- <-.
  all: cbn [xx in_domain] in HD; unfold in_bounds, bound_value in HD;
       cbn in HD.
  all: destruct HD as ([L0 U0] & [L1 U1] & [L2 U2] & _).
  all: try (assert (Hsin : 0 <= sin (env xx1p))
             by (apply sin_ge_0; assumption)).
  - apply (spherical_nonneg "Spherical" (Sym xx0p)); try assumption.
    cbn; lra.
  - apply (spherical_nonneg "SinhSpherical"
             (sinh_law (Cparameter "AMPL") (Cparameter "SINHW") xx0p));
      try assumption.
    + apply sinh_law_nonneg; try (apply HP; reflexivity); assumption.
    + left. apply diff_sinh_law_pos;
        try reflexivity; apply HP; reflexivity.
  - apply (spherical_nonneg "SinhSphericalv2"
             (sinh_law_v2 (Cparameter "AMPL") (Cparameter "SINHW")
                (Cparameter "const_dr") xx0p)); try assumption.
    + apply sinh_law_v2_nonneg; try (apply HP; reflexivity); assumption.
    + left. apply diff_sinh_law_v2_pos;
        try reflexivity; apply HP; reflexivity.
  - apply (cylindrical_nonneg "Cylindrical" p1 (Sym xx0p) (Sym xx2s));
      try assumption; cbn; lra.
  - apply (cylindrical_nonneg "SinhCylindrical" p1
             (sinh_law (Cparameter "AMPLRHO") (Cparameter "SINHWRHO") xx0p)
             (sinh_law (Cparameter "AMPLZ") (Cparameter "SINHWZ") xx2s));
      try assumption.
    + apply sinh_law_nonneg; try (apply HP; reflexivity); assumption.
    + left. apply diff_sinh_law_pos;
        try reflexivity; apply HP; reflexivity.
    + left. apply diff_sinh_law_pos;
        try reflexivity; apply HP; reflexivity.
  - apply (cylindrical_nonneg "SinhCylindricalv2" p1
             (sinh_law_v2 (Cparameter "AMPLRHO") (Cparameter "SINHWRHO")
                (Cparameter "const_drho") xx0p)
             (sinh_law_v2 (Cparameter "AMPLZ") (Cparameter "SINHWZ")
                (Cparameter "const_dz") xx2s));
      try assumption.
    + apply sinh_law_v2_nonneg; try (apply HP; reflexivity); assumption.
    + left. apply diff_sinh_law_v2_pos;
        try reflexivity; apply HP; reflexivity.
    + left. apply diff_sinh_law_v2_pos;
        try reflexivity; apply HP; reflexivity.
  - apply (symtp_nonneg "SymTP" (Sym xx0p)); try assumption.
    cbn; lra.
  - apply (symtp_nonneg "SinhSymTP" (sinh_half (Cparameter "AW") xx0p));
      try assumption.
    + apply sinh_half_nonneg; [apply HP; reflexivity | assumption].
    + left. apply diff_sinh_half_pos; [reflexivity | apply HP; reflexivity].
  - apply (cartesian_nonneg p0 p1). assumption.
Qed.
End Nonneg.

Lemma parameters_positive_env_ones : parameters_positive env_ones.
Proof. intros p _. unfold env_ones. lra. Qed.

Lemma C8_scale_factors_nonnegative_witness :
  exists s',
    reachable initial_state /\ In "SinhSpherical" supported
    /\ SetActiveCoordinateSystem "SinhSpherical" initial_state = Ok s'
    /\ domain_bounds "SinhSpherical" initial_state
       = Ok (Some ["0.0"; "0.0"; "0.0"], Some ["1.0"; "M_PI"; "2.0*M_PI"])
    /\ parameters_positive env_ones
    /\ in_domain env_ones (xx s')
         ["0.0"; "0.0"; "0.0"] ["1.0"; "M_PI"; "2.0*M_PI"]
    /\ (0 < 3)%nat
    /\ (0 <= scale_factor env_ones s' 0)%R.
Proof.
  assert (S : In "SinhSpherical" supported) by (cbn; tauto).
  destruct (SetActiveCoordinateSystem "SinhSpherical" initial_state)
    as [s'| |] eqn:E; try (vm_compute in E; discriminate E).
  assert (B : domain_bounds "SinhSpherical" initial_state
              = Ok (Some ["0.0"; "0.0"; "0.0"],
                    Some ["1.0"; "M_PI"; "2.0*M_PI"])) by reflexivity.
  assert (D : in_domain env_ones (xx s')
                ["0.0"; "0.0"; "0.0"] ["1.0"; "M_PI"; "2.0*M_PI"]).
  { pose proof E as E'. vm_compute in E'. injection E' as <-.
    cbn [xx in_domain]. unfold in_bounds, bound_value. cbn.
    unfold env_ones. pose proof PI2_1. repeat split; lra. }
  exists s'. split; [exact reach_import|]. split; [exact S|].
  split; [reflexivity|]. split; [exact B|].
  split; [exact parameters_positive_env_ones|]. split; [exact D|].
  split; [lia|].
  apply (C8_scale_factors_nonnegative env_ones "SinhSpherical"
           initial_state s' _ _ 0 reach_import S E B
           parameters_positive_env_ones D).
  lia.
Defined.

(** * Further properties of the module *)

(** ** Outcomes, history and symbols *)

Section Outcomes.
Variable simplify : expr -> expr.

(** X1: how a call of [reference_metric()] ends, in any state: a name
    outside the supported set exits with the message before any array is
    touched; a supported name returns when the four arrays have their
    first three slots and raises [IndexError] otherwise. *)
Theorem reference_metric_outcomes (n : string) (s : state) :
  (~ In n supported ->
   SetActiveCoordinateSystem n s
   = Exit ("CoordSystem == " ++ n ++ " is not supported.") 1%Z)
  /\ (In n supported -> three_slots s ->
      exists s', SetActiveCoordinateSystem n s = Ok s')
  /\ (In n supported -> ~ three_slots s ->
      SetActiveCoordinateSystem n s = IndexError).
Proof.
  split.
  { intros U. apply unsupported_not_in in U.
    unfold SetActiveCoordinateSystem, reference_metric.
    rewrite (reference_metric_body_unsupported _ _ U). reflexivity. }
  destruct s as [cs lx lc lh lf mn mx]. unfold three_slots.
  cbn [xx xxCart xxSph scalefactor_orthog].
  shape lx; shape lc; shape lh; shape lf; cbn [List.length].
  all: split; intros S H; try (exfalso; lia).
  all: supported_cases S.
  all: vm_compute; try reflexivity; try (eexists; reflexivity).
Qed.

(** X2: [UnitVectors3D()] never exits and never changes the state; it
    returns a 3 by 3 table when [xx] and [xxCart] have their first three
    slots and raises [IndexError] otherwise. *)
Theorem UnitVectors3D_outcomes (s : state) :
  match UnitVectors3D simplify s with
  | Ok (U, s') =>
      s' = s /\ map (@List.length expr) U = [3; 3; 3]%nat
      /\ (3 <= List.length (xx s))%nat /\ (3 <= List.length (xxCart s))%nat
  | Exit _ _ => False
  | IndexError =>
      (List.length (xx s) < 3)%nat \/ (List.length (xxCart s) < 3)%nat
  end.
Proof.
  destruct s as [cs lx lc lh lf mn mx]. cbn [xx xxCart].
  shape lx; shape lc; cbn [List.length].
  all: vm_compute; repeat split; try lia.
Qed.
End Outcomes.

(** X3: apart from the positivity assumptions of the symbols, a
    selection made after any sequence of earlier selections leaves the
    same state as the same selection made right after the import. *)
Theorem selection_forgets_history (n : string) (s : state) :
  reachable s -> In n supported ->
  exists s' s0,
    SetActiveCoordinateSystem n s = Ok s'
    /\ SetActiveCoordinateSystem n initial_state = Ok s0
    /\ forget_state s' = forget_state s0.
Proof.
  intros R S. apply reachable_canonical in R. canonical_state s.
  destruct p0, p1; supported_cases S.
  all: do 2 eexists; split; [vm_compute; reflexivity|].
  all: split; [vm_compute; reflexivity|].
  all: vm_compute; reflexivity.
Qed.

Lemma current_coordinates_only_spec (s : state) :
  current_coordinates_only s = true ->
  forall e x, In e (components s) -> In x (free_symbols e) ->
    is_coordinate x = true -> In x (firstn 3 (xx s)).
Proof.
  unfold current_coordinates_only. intros H e x He Hx Hc.
  rewrite forallb_forall in H. specialize (H e He).
  rewrite forallb_forall in H. specialize (H x Hx).
  rewrite Hc in H. cbn in H.
  apply existsb_exists in H. destruct H as (y & Hy & E).
  apply symbol_eqb_eq in E. subst. exact Hy.
Qed.

(** X4: in every state the program can be in, the coordinate symbols
    that occur in [xxCart], [xxSph] and [scalefactor_orthog] are [xx[0]],
    [xx[1]] and [xx[2]] exactly as [xx] holds them: no expression mentions
    [xx3] or a coordinate symbol with the assumptions of an earlier
    selection. *)
Theorem components_use_current_coordinates (s : state) :
  reachable s ->
  forall e x, In e (components s) -> In x (free_symbols e) ->
    is_coordinate x = true -> In x (firstn 3 (xx s)).
Proof.
  intros R. apply current_coordinates_only_spec.
  destruct R as [|n s s' R H]; [reflexivity|].
  apply reachable_canonical in R. canonical_state s.
  destruct (name_cases n) as [S|U].
  - destruct p0, p1; supported_cases S; vm_compute in H; injection H as <-;
      vm_compute; reflexivity.
  - unfold SetActiveCoordinateSystem, reference_metric in H.
    rewrite (reference_metric_body_unsupported _ _ U) in H. discriminate.
Qed.

(** ** Spherical coordinates against Cartesian coordinates *)

(** The state a selection leaves is the template of its group at the law
    of its name. *)
Lemma selected_cases (n : string) (s s' : state) :
  reachable s -> In n supported -> SetActiveCoordinateSystem n s = Ok s' ->
  (In n spherical_systems /\ s' = spherical_selection n (radius_of n))
  \/ (In n cylindrical_systems
      /\ exists p1, s' = cylindrical_selection n p1 (rho_of n) (height_of n))
  \/ (In n symtp_systems /\ s' = symtp_selection n (AA_of n))
  \/ (n = "Cartesian" /\ exists p0 p1, s' = cartesian_selection p0 p1).
Proof.
  intros R S H. apply reachable_canonical in R. canonical_state s.
  supported_cases S; vm_compute in H; injection H as <-.
  1-3: left; split; [cbn; tauto | reflexivity].
  1-3: right; left; split; [cbn; tauto | exists p1; reflexivity].
  1-2: right; right; left; split; [cbn; tauto | reflexivity].
  right; right; right; split; [reflexivity | exists p0, p1; reflexivity].
Qed.

Lemma radius_of_independent (n : string) :
  In n spherical_systems ->
  depends_on (radius_of n) xx1p = false
  /\ depends_on (radius_of n) xx2s = false.
Proof. intros S. supported_cases S; split; reflexivity. Qed.

Lemma cylinder_laws_independent (n : string) (p1 : bool) :
  In n cylindrical_systems ->
  depends_on (rho_of n) (symbols "xx1" p1) = false
  /\ depends_on (rho_of n) xx2s = false
  /\ depends_on (height_of n) xx0p = false
  /\ depends_on (height_of n) (symbols "xx1" p1) = false.
Proof. intros S. supported_cases S; repeat split; reflexivity. Qed.

Lemma AA_of_independent (n : string) :
  In n symtp_systems ->
  depends_on (AA_of n) xx1p = false /\ depends_on (AA_of n) xx2s = false.
Proof. intros S. supported_cases S; split; reflexivity. Qed.

(** X5: for every supported system and at every point, the square of
    [xxSph[0]] is the sum of the squares of [xxCart[0]], [xxCart[1]] and
    [xxCart[2]]; in the branches that derive the radius from the
    Cartesian-like coordinates, [xxSph[0]] is the Euclidean distance from
    the origin. *)
Theorem radius_is_cartesian_distance
    (n : string) (s s' : state) (env : symbol -> R) :
  reachable s -> In n supported -> SetActiveCoordinateSystem n s = Ok s' ->
  (sph_value env s' 0 * sph_value env s' 0
   = dot3 (cart_value env s') (cart_value env s'))%R
  /\ (In n derived_angle_systems ->
      sph_value env s' 0 = sqrt (dot3 (cart_value env s') (cart_value env s'))).
Proof.
  intros R S H.
  destruct (selected_cases n s s' R S H)
    as [[F ->]|[[F [p1 ->]]|[[F ->]|[-> (p0 & p1 & ->)]]]].
  - split.
    + unfold sph_value, cart_value, dot3; cbn [spherical_selection xxSph xxCart nth eval].
      trig_vars. set (r := eval env (radius_of n)). clearbody r. nsatz.
    + intros D. exfalso. cbn in F, D.
      repeat match goal with H : _ \/ _ |- _ => destruct H as [H|H] end;
        subst; try discriminate; try contradiction.
  - assert (E : (sph_value env (cylindrical_selection n p1 (rho_of n) (height_of n)) 0
             = sqrt (dot3 (cart_value env (cylindrical_selection n p1 (rho_of n) (height_of n)))
                          (cart_value env (cylindrical_selection n p1 (rho_of n) (height_of n)))))%R).
    { unfold sph_value, cart_value, dot3;
        cbn [cylindrical_selection xxSph xxCart nth eval].
      rewrite !powerRZ_2. f_equal.
      trig_vars. set (r := eval env (rho_of n)). clearbody r. nsatz. }
    split; [|intros _; exact E].
    rewrite E. apply sqrt_sqrt. unfold dot3. nra.
  - assert (E : (sph_value env (symtp_selection n (AA_of n)) 0
             = sqrt (dot3 (cart_value env (symtp_selection n (AA_of n)))
                          (cart_value env (symtp_selection n (AA_of n)))))%R).
    { unfold sph_value, cart_value, dot3;
        cbn [symtp_selection xxSph xxCart nth eval].
      rewrite !powerRZ_2. f_equal.
      trig_vars. set (r := eval env (AA_of n)).
      set (v := sqrt (r * r + env (symbols "bScale" true) * env (symbols "bScale" true))%R).
      clearbody r v. nsatz. }
    split; [|intros _; exact E].
    rewrite E. apply sqrt_sqrt. unfold dot3. nra.
  - assert (E : (sph_value env (cartesian_selection p0 p1) 0
             = sqrt (dot3 (cart_value env (cartesian_selection p0 p1))
                          (cart_value env (cartesian_selection p0 p1))))%R).
    { unfold sph_value, cart_value, dot3;
        cbn [cartesian_selection xxSph xxCart nth eval].
      rewrite !powerRZ_2. reflexivity. }
    split; [|intros _; exact E].
    rewrite E. apply sqrt_sqrt. unfold dot3. nra.
Qed.

Section Atan2.
Local Open Scope R_scope.

Lemma sqrt_sum_squares (x y : R) :
  x <> 0 -> sqrt (x * x + y * y) = Rabs x * sqrt (1 + (y / x)²).
Proof.
  intros Hx.
  replace (x * x + y * y) with ((x * x) * (1 + (y / x)²))
    by (unfold Rsqr; field; exact Hx).
  rewrite sqrt_mult; [|nra|unfold Rsqr; nra].
  f_equal. fold (Rsqr x). apply sqrt_Rsqr_abs.
Qed.

Lemma atan_polar (x y : R) :
  x <> 0 ->
  Rabs x * sqrt (1 + (y / x)²) * cos (atan (y / x)) = Rabs x
  /\ Rabs x * sqrt (1 + (y / x)²) * sin (atan (y / x)) = Rabs x * (y / x).
Proof.
  intros Hx. rewrite cos_atan, sin_atan.
  assert (0 < sqrt (1 + (y / x)²)).
  { apply sqrt_lt_R0. unfold Rsqr. nra. }
  split; field; lra.
Qed.

(** The angle [atan2 y x] and the distance from the origin are polar
    coordinates of the point [(x, y)]. *)
Lemma atan2_polar (y x : R) :
  x = sqrt (x * x + y * y) * cos (atan2 y x)
  /\ y = sqrt (x * x + y * y) * sin (atan2 y x).
Proof.
  unfold atan2.
  destruct (Rlt_dec 0 x) as [Hp|Hp].
  - assert (Hx : x <> 0) by lra.
    destruct (atan_polar x y Hx) as [C S].
    rewrite sqrt_sum_squares by exact Hx.
    rewrite C, S, Rabs_pos_eq by lra. split; [reflexivity|field; exact Hx].
  - destruct (Rlt_dec x 0) as [Hn|Hn].
    + assert (Hx : x <> 0) by lra.
      destruct (atan_polar x y Hx) as [C S].
      rewrite sqrt_sum_squares by exact Hx.
      assert (A : Rabs x = - x) by (apply Rabs_left; exact Hn).
      destruct (Rle_dec 0 y).
      * rewrite neg_cos, neg_sin.
        replace (Rabs x * sqrt (1 + (y / x)²) * - cos (atan (y / x)))
          with (- (Rabs x * sqrt (1 + (y / x)²) * cos (atan (y / x)))) by ring.
        replace (Rabs x * sqrt (1 + (y / x)²) * - sin (atan (y / x)))
          with (- (Rabs x * sqrt (1 + (y / x)²) * sin (atan (y / x)))) by ring.
        rewrite C, S, A. split; [ring|field; exact Hx].
      * replace (atan (y / x) - PI) with (- (PI - atan (y / x))) by ring.
        rewrite cos_neg, sin_neg.
        replace (PI - atan (y / x)) with (- atan (y / x) + PI) by ring.
        rewrite neg_cos, neg_sin, cos_neg, sin_neg.
        replace (Rabs x * sqrt (1 + (y / x)²) * - cos (atan (y / x)))
          with (- (Rabs x * sqrt (1 + (y / x)²) * cos (atan (y / x)))) by ring.
        replace (Rabs x * sqrt (1 + (y / x)²) * - - - sin (atan (y / x)))
          with (- (Rabs x * sqrt (1 + (y / x)²) * sin (atan (y / x)))) by ring.
        rewrite C, S, A. split; [ring|field; exact Hx].
    + assert (Hx : x = 0) by lra. subst x.
      replace (0 * 0 + y * y) with (y * y) by ring.
      destruct (Rlt_dec 0 y).
      * rewrite cos_PI2, sin_PI2, sqrt_square by lra. split; ring.
      * destruct (Rlt_dec y 0).
        -- rewrite cos_neg, sin_neg, cos_PI2, sin_PI2.
           replace (y * y) with ((- y) * (- y)) by ring.
           rewrite sqrt_square by lra. split; ring.
        -- assert (y = 0) by lra. subst y.
           rewrite Rmult_0_l, sqrt_0. split; ring.
Qed.
End Atan2.

(** X6: for every supported system and at every point, the point
    [(xxCart[0], xxCart[1])] lies on the line of angle [xxSph[2]] through
    the origin; in Cartesian coordinates [xxSph[2] = atan2(xx1, xx0)] is
    its polar angle: [xxCart[0] = rho*cos(xxSph[2])] and
    [xxCart[1] = rho*sin(xxSph[2])] with [rho] the distance from the
    axis. *)
Theorem azimuth_is_cartesian_angle
    (n : string) (s s' : state) (env : symbol -> R) :
  reachable s -> In n supported -> SetActiveCoordinateSystem n s = Ok s' ->
  (cart_value env s' 0 * sin (sph_value env s' 2)
   = cart_value env s' 1 * cos (sph_value env s' 2))%R
  /\ (n = "Cartesian" ->
      let rho := sqrt (cart_value env s' 0 * cart_value env s' 0
                       + cart_value env s' 1 * cart_value env s' 1) in
      cart_value env s' 0 = (rho * cos (sph_value env s' 2))%R
      /\ cart_value env s' 1 = (rho * sin (sph_value env s' 2))%R).
Proof.
  intros R S H.
  destruct (selected_cases n s s' R S H)
    as [[F ->]|[[F [p1 ->]]|[[F ->]|[-> (p0 & p1 & ->)]]]].
  1-3: split;
    [unfold sph_value, cart_value;
     cbn [spherical_selection cylindrical_selection symtp_selection
          xxSph xxCart nth eval]; ring
    |intros ->; exfalso; cbn in F;
     repeat match goal with H : _ \/ _ |- _ => destruct H as [H|H] end;
     try discriminate; try contradiction].
  unfold sph_value, cart_value.
  cbn [cartesian_selection xxSph xxCart nth eval].
  destruct (atan2_polar (env (symbols "xx1" p1)) (env (symbols "xx0" p0)))
    as [C Sn].
  split; [|intros _; split; assumption].
  set (rho := sqrt (env (symbols "xx0" p0) * env (symbols "xx0" p0)
                    + env (symbols "xx1" p1) * env (symbols "xx1" p1))%R) in *.
  set (a := atan2 (env (symbols "xx1" p1)) (env (symbols "xx0" p0))) in *.
  clearbody rho a. rewrite C, Sn. ring.
Qed.

(** ** The unit vectors and the matrices the comments record *)

Lemma Rmult_pos_nonzero (a b : R) : (0 < a * b -> a <> 0 /\ b <> 0)%R.
Proof.
  intros H. split; intros E; rewrite E in H;
    [rewrite Rmult_0_l in H | rewrite Rmult_0_r in H]; lra.
Qed.

Section UnitVectorValues.
Variable simplify : expr -> expr.
Hypothesis simplify_sound :
  forall env e, respects env -> eval env (simplify e) = eval env e.

(** An entry of the table of [UnitVectors3D] has the value of the
    derivative divided by the scale factor of its row, where that scale
    factor is positive. *)
Lemma unit_vector_quotient
    (n : string) (s s' : state) (env : symbol -> R) (i j : nat) :
  reachable s -> In n supported -> SetActiveCoordinateSystem n s = Ok s' ->
  respects env -> (i < 3)%nat -> (j < 3)%nat ->
  (0 < scale_factor env s' i)%R ->
  exists U,
    UnitVectors3D simplify s' = Ok (U, s')
    /\ row_values env U i j
       = (jacobian env s' i j / scale_factor env s' i)%R.
Proof.
  intros R S H He Hi Hj P.
  pose proof (proj2 (selected_metric env n s s' R S H He) i Hi) as Q.
  assert (N : sqrt (dot3 (jacobian env s' i) (jacobian env s' i))
              = scale_factor env s' i)
    by (rewrite <- Q; apply sqrt_square; lra).
  rewrite <- N. clear N Q P.
  pose proof (canonical_step _ _ _ (reachable_canonical _ R) H) as C'.
  clear R H. canonical_state s'.
  eexists. split; [vm_compute; reflexivity|].
  destruct i as [|[|[|i]]]; try lia; destruct j as [|[|[|j]]]; try lia.
  all: unfold row_values, table_get, dot3, jacobian; cbn [nth eval xx xxCart].
  all: rewrite !simplify_sound by exact He; cbn [eval].
  all: rewrite !simplify_sound by exact He; cbn [eval].
  all: rewrite !powerRZ_2, Rplus_0_l; reflexivity.
Qed.

Lemma selected_spherical (n : string) (s s' : state) :
  reachable s -> In n spherical_systems ->
  SetActiveCoordinateSystem n s = Ok s' ->
  In n supported /\ s' = spherical_selection n (radius_of n).
Proof.
  intros R S H. apply reachable_canonical in R. canonical_state s.
  supported_cases S; vm_compute in H; injection H as <-;
    (split; [cbn; tauto | reflexivity]).
Qed.

Lemma selected_cylindrical (n : string) (s s' : state) :
  reachable s -> In n cylindrical_systems ->
  SetActiveCoordinateSystem n s = Ok s' ->
  In n supported
  /\ exists p1, s' = cylindrical_selection n p1 (rho_of n) (height_of n).
Proof.
  intros R S H. apply reachable_canonical in R. canonical_state s.
  supported_cases S; vm_compute in H; injection H as <-;
    (split; [cbn; tauto | exists p1; reflexivity]).
Qed.

Lemma selected_symtp (n : string) (s s' : state) :
  reachable s -> In n symtp_systems ->
  SetActiveCoordinateSystem n s = Ok s' ->
  In n supported /\ s' = symtp_selection n (AA_of n).
Proof.
  intros R S H. apply reachable_canonical in R. canonical_state s.
  supported_cases S; vm_compute in H; injection H as <-;
    (split; [cbn; tauto | reflexivity]).
Qed.

Lemma selected_cartesian (s s' : state) :
  reachable s -> SetActiveCoordinateSystem "Cartesian" s = Ok s' ->
  exists p0 p1, s' = cartesian_selection p0 p1.
Proof.
  intros R H. apply reachable_canonical in R. canonical_state s.
  vm_compute in H; injection H as <-. exists p0, p1. reflexivity.
Qed.

(** X7: for every supported system, at a point that respects the
    assumptions of the symbols and where [scalefactor_orthog[i]] is
    positive, the norm of row [i] that [UnitVectors3D] computes is the
    declared scale factor, and every entry [i][j] of its table has the
    value of [diff(xxCart[j], xx[i])] divided by
    [scalefactor_orthog[i]]. *)
Theorem unit_vectors_over_scale_factor
    (n : string) (s s' : state) (env : symbol -> R) (i : nat) :
  reachable s -> In n supported -> SetActiveCoordinateSystem n s = Ok s' ->
  respects env -> (i < 3)%nat ->
  (0 < scale_factor env s' i)%R ->
  exists U,
    UnitVectors3D simplify s' = Ok (U, s')
    /\ row_norm env s' i = scale_factor env s' i
    /\ forall j, (j < 3)%nat ->
         row_values env U i j
         = (jacobian env s' i j / scale_factor env s' i)%R.
Proof.
  intros R S H He Hi P.
  assert (H0 : (0 < 3)%nat) by lia.
  destruct (unit_vector_quotient n s s' env i 0 R S H He Hi H0 P)
    as (U & HU & _).
  exists U. split; [exact HU|]. split.
  - pose proof (proj2 (selected_metric env n s s' R S H He) i Hi) as Q.
    unfold row_norm. rewrite <- Q. apply sqrt_square. lra.
  - intros j Hj.
    destruct (unit_vector_quotient n s s' env i j R S H He Hi Hj P)
      as (U' & HU' & HV).
    rewrite HU in HU'. injection HU' as <-. exact HV.
Qed.

(** X8: in the Spherical, SinhSpherical and SinhSphericalv2 systems, where
    the scale factor of row [i] is positive, row [i] of the table of
    [UnitVectors3D] has the values of the matrix [xxhat] that the comment
    of the branch records,
    [[sin(th)cos(ph), sin(th)sin(ph), cos(th)],
     [cos(th)cos(ph), cos(th)sin(ph), -sin(th)], [-sin(ph), cos(ph), 0]]
    with [th = xxSph[1]] and [ph = xxSph[2]]. *)
Theorem unit_vectors_spherical
    (n : string) (s s' : state) (env : symbol -> R) (i j : nat) :
  reachable s -> In n spherical_systems ->
  SetActiveCoordinateSystem n s = Ok s' ->
  respects env -> (i < 3)%nat -> (j < 3)%nat ->
  (0 < scale_factor env s' i)%R ->
  exists U,
    UnitVectors3D simplify s' = Ok (U, s')
    /\ row_values env U i j = eval env (table_get (xxhat_spherical s') i j).
Proof.
  intros R F H He Hi Hj P.
  destruct (selected_spherical n s s' R F H) as [S E].
  destruct (unit_vector_quotient n s s' env i j R S H He Hi Hj P)
    as (U & HU & HV).
  exists U. split; [exact HU|]. rewrite HV. clear HU HV U. subst s'.
  destruct (radius_of_independent n F) as [I1 I2].
  pose proof (eval_diff_indep env _ _ I1) as D1.
  pose proof (eval_diff_indep env _ _ I2) as D2.
  revert P D1 D2. generalize (radius_of n). intros r P D1 D2.
  destruct i as [|[|[|i]]]; try lia; destruct j as [|[|[|j]]]; try lia.
  all: unfold scale_factor, jacobian, table_get, xxhat_spherical in *.
  all: cbn in P |- *; rewrite ?D1, ?D2.
  all: try (apply Rmult_pos_nonzero in P; destruct P).
  all: field; repeat split; try assumption; lra.
Qed.

(** X9: in the Cylindrical, SinhCylindrical and SinhCylindricalv2
    systems, where the scale factor of row [i] is positive, row [i] of
    the table of [UnitVectors3D] has the values of the matrix [xxhat] of
    the comment of the branch,
    [[cos(PHICYL), sin(PHICYL), 0], [-sin(PHICYL), cos(PHICYL), 0],
     [0, 0, 1]]. *)
Theorem unit_vectors_cylindrical
    (n : string) (s s' : state) (env : symbol -> R) (i j : nat) :
  reachable s -> In n cylindrical_systems ->
  SetActiveCoordinateSystem n s = Ok s' ->
  respects env -> (i < 3)%nat -> (j < 3)%nat ->
  (0 < scale_factor env s' i)%R ->
  exists U,
    UnitVectors3D simplify s' = Ok (U, s')
    /\ row_values env U i j
       = eval env (table_get (xxhat_cylindrical s') i j).
Proof.
  intros R F H He Hi Hj P.
  destruct (selected_cylindrical n s s' R F H) as [S [p1 E]].
  destruct (unit_vector_quotient n s s' env i j R S H He Hi Hj P)
    as (U & HU & HV).
  exists U. split; [exact HU|]. rewrite HV. clear HU HV U. subst s'.
  destruct (cylinder_laws_independent n p1 F) as (I1 & I2 & I3 & I4).
  pose proof (eval_diff_indep env _ _ I1) as D1.
  pose proof (eval_diff_indep env _ _ I2) as D2.
  pose proof (eval_diff_indep env _ _ I3) as D3.
  pose proof (eval_diff_indep env _ _ I4) as D4.
  revert P D1 D2 D3 D4. generalize (rho_of n) (height_of n).
  intros rho z P D1 D2 D3 D4.
  destruct i as [|[|[|i]]]; try lia; destruct j as [|[|[|j]]]; try lia.
  all: unfold scale_factor, jacobian, table_get, xxhat_cylindrical in *.
  all: destruct p1; cbn in P, D1, D4 |- *; rewrite ?D1, ?D2, ?D3, ?D4.
  all: field; lra.
Qed.

(** X11: in Cartesian coordinates the table of [UnitVectors3D] has the
    values of the identity matrix, the [xxhat] of the comment of the
    branch, at every point that respects the assumptions of the
    symbols. *)
Theorem unit_vectors_cartesian
    (s s' : state) (env : symbol -> R) (i j : nat) :
  reachable s -> SetActiveCoordinateSystem "Cartesian" s = Ok s' ->
  respects env -> (i < 3)%nat -> (j < 3)%nat ->
  exists U,
    UnitVectors3D simplify s' = Ok (U, s')
    /\ row_values env U i j = eval env (table_get xxhat_cartesian i j).
Proof.
  intros R H He Hi Hj.
  assert (S : In "Cartesian" supported) by (cbn; tauto).
  destruct (selected_cartesian s s' R H) as (p0 & p1 & E).
  assert (P : (0 < scale_factor env s' i)%R).
  { subst s'. destruct i as [|[|[|i]]]; try lia; cbn; lra. }
  destruct (unit_vector_quotient "Cartesian" s s' env i j R S H He Hi Hj P)
    as (U & HU & HV).
  exists U. split; [exact HU|]. rewrite HV. clear HU HV U P. subst s'.
  destruct i as [|[|[|i]]]; try lia; destruct j as [|[|[|j]]]; try lia.
  all: unfold scale_factor, jacobian, table_get, xxhat_cartesian.
  all: destruct p0, p1; cbn; field.
Qed.
(** X10: in the SymTP and SinhSymTP systems, where the scale factor of
    row [i] is positive, row [i] of the table of [UnitVectors3D] has the
    values of the matrix [xxhat] of the comment of the branch, written
    with [AA], [var1] and [var2]. *)
Theorem unit_vectors_symtp
    (n : string) (s s' : state) (env : symbol -> R) (i j : nat) :
  reachable s -> In n symtp_systems ->
  SetActiveCoordinateSystem n s = Ok s' ->
  respects env -> (i < 3)%nat -> (j < 3)%nat ->
  (0 < scale_factor env s' i)%R ->
  exists U,
    UnitVectors3D simplify s' = Ok (U, s')
    /\ row_values env U i j = eval env (table_get (xxhat_symtp n s') i j).
Proof.
  intros R F H He Hi Hj P.
  destruct (selected_symtp n s s' R F H) as [S E].
  destruct (unit_vector_quotient n s s' env i j R S H He Hi Hj P)
    as (U & HU & HV).
  exists U. split; [exact HU|]. rewrite HV. clear HU HV U. subst s'.
  destruct (AA_of_independent n F) as [I1 I2].
  pose proof (eval_diff_indep env _ _ I1) as D1.
  pose proof (eval_diff_indep env _ _ I2) as D2.
  pose proof (He (symbols "bScale" true) eq_refl) as Hb.
  unfold xxhat_symtp.
  revert P D1 D2. generalize (AA_of n). intros AA P D1 D2.
  destruct i as [|[|[|i]]]; try lia; destruct j as [|[|[|j]]]; try lia.
  all: unfold scale_factor, jacobian, table_get in *.
  all: cbn in P |- *; rewrite ?D1, ?D2.
  all: change (Pos.to_nat 2) with 2%nat in *;
       change (Pos.to_nat 1) with 1%nat in *; cbn [pow] in *.
  all: set (A := eval env AA) in *; set (A' := eval env (diff AA xx0p)) in *;
       set (b := env (symbols "bScale" true)) in *.
  all: assert (Hq : (0 < A * (A * 1) + b * (b * 1))%R) by nra.
  all: pose proof (sqrt_lt_R0 _ Hq) as HV0.
  all: set (V := sqrt (A * (A * 1) + b * (b * 1))) in *.
  all: set (W := sqrt (A * (A * 1)
                       + b * sin (env xx1p) * (b * sin (env xx1p) * 1))) in *.
  all: clearbody A A' b V W.
  1-3: assert (Hn : A' <> 0%R /\ W <> 0%R)
         by (apply Rmult_pos_nonzero;
             apply (Rmult_lt_reg_r (/ V));
             [apply Rinv_0_lt_compat; exact HV0
             |rewrite Rmult_0_l; exact P]);
       destruct Hn.
  7-9: apply Rmult_pos_nonzero in P; destruct P.
  all: field; repeat split; try assumption; lra.
Qed.
End UnitVectorValues.

(** ** The sinh laws, the SymTP surfaces and the bounds *)

Section SinhLaws.
Local Open Scope R_scope.
Variable env : symbol -> R.

Lemma sinh_quotient_one (w : R) : w <> 0 -> sinh (1 / w) / sinh (1 / w) = 1.
Proof.
  intros Hw. apply Rdiv_diag.
  assert (H : 1 / w <> 0).
  { unfold Rdiv. rewrite Rmult_1_l. apply Rinv_neq_0_compat. exact Hw. }
  destruct (Rtotal_order (1 / w) 0) as [L|[E|G]]; [|contradiction|].
  - pose proof (sinh_lt _ _ L) as K. rewrite sinh_0 in K. lra.
  - pose proof (sinh_lt _ _ G) as K. rewrite sinh_0 in K. lra.
Qed.

Lemma sinh_law_at_zero (A W x : symbol) :
  env x = 0 -> eval env (sinh_law A W x) = 0.
Proof.
  intros E. rewrite eval_sinh_law, E.
  unfold Rdiv. rewrite Rmult_0_l, sinh_0. ring.
Qed.

Lemma sinh_law_at_one (A W x : symbol) :
  env W <> 0 -> env x = 1 -> eval env (sinh_law A W x) = env A.
Proof.
  intros HW E. rewrite eval_sinh_law, E.
  unfold Rdiv at 1. rewrite Rmult_assoc.
  fold (sinh (1 / env W) / sinh (1 / env W)).
  rewrite sinh_quotient_one by exact HW. ring.
Qed.

Lemma sinh_odd (t : R) : sinh (- t) = - sinh t.
Proof. unfold sinh. rewrite Ropp_involutive. field. Qed.

Lemma sinh_law_at_minus_one (A W x : symbol) :
  env W <> 0 -> env x = -1 -> eval env (sinh_law A W x) = - env A.
Proof.
  intros HW E. rewrite eval_sinh_law, E.
  replace (-1 / env W) with (- (1 / env W)) by (unfold Rdiv; ring).
  rewrite sinh_odd.
  replace (env A * - sinh (1 / env W) / sinh (1 / env W))
    with (- env A * (sinh (1 / env W) / sinh (1 / env W)))
    by (unfold Rdiv; ring).
  rewrite sinh_quotient_one by exact HW. ring.
Qed.
End SinhLaws.

(** X12: in SinhSpherical coordinates with [SINHW] not zero, the radius
    [xxSph[0]] is 0 at the lower bound [xxmin[0] = 0.0] of [xx0] and [AMPL]
    at its upper bound [xxmax[0] = 1.0]; with positive [AMPL] and [SINHW]
    its derivative [scalefactor_orthog[0]] is positive everywhere, so the
    radius increases with [xx0]. *)
Theorem sinh_spherical_radius_range (s s' : state) (env : symbol -> R) :
  reachable s -> SetActiveCoordinateSystem "SinhSpherical" s = Ok s' ->
  env (Cparameter "SINHW") <> 0%R ->
  exists mn mx,
    domain_bounds "SinhSpherical" s = Ok (Some mn, Some mx)
    /\ bound_value env (nth 0 mn "") = Some 0%R
    /\ bound_value env (nth 0 mx "") = Some 1%R
    /\ (env (nth 0 (xx s') xx3s) = 0%R -> sph_value env s' 0 = 0%R)
    /\ (env (nth 0 (xx s') xx3s) = 1%R ->
        sph_value env s' 0 = env (Cparameter "AMPL"))
    /\ ((0 < env (Cparameter "AMPL"))%R ->
        (0 < env (Cparameter "SINHW"))%R ->
        (0 < scale_factor env s' 0)%R).
Proof.
  intros R H HW.
  assert (F : In "SinhSpherical" spherical_systems) by (cbn; tauto).
  destruct (selected_spherical _ _ _ R F H) as [_ ->].
  apply reachable_canonical in R. canonical_state s.
  do 2 eexists. split; [vm_compute; reflexivity|].
  split; [reflexivity|]. split; [reflexivity|].
  unfold sph_value, scale_factor.
  cbn [spherical_selection xx xxSph scalefactor_orthog nth].
  change (radius_of "SinhSpherical")
    with (sinh_law (Cparameter "AMPL") (Cparameter "SINHW") xx0p).
  split; [apply sinh_law_at_zero|].
  split; [apply sinh_law_at_one; exact HW|].
  intros HA HW'. apply diff_sinh_law_pos; try reflexivity; assumption.
Qed.

(** X13: at every point the radius of SinhSphericalv2 is the radius of
    SinhSpherical plus [AMPL*const_dr*xx0], and its radial scale factor is
    that of SinhSpherical plus the constant [AMPL*const_dr]. *)
Theorem sinh_spherical_v2_adds_linear_term
    (s1 s2 s1' s2' : state) (env : symbol -> R) :
  reachable s1 -> reachable s2 ->
  SetActiveCoordinateSystem "SinhSpherical" s1 = Ok s1' ->
  SetActiveCoordinateSystem "SinhSphericalv2" s2 = Ok s2' ->
  sph_value env s2' 0
  = (sph_value env s1' 0
     + env (Cparameter "AMPL") * env (Cparameter "const_dr") * env xx0p)%R
  /\ scale_factor env s2' 0
     = (scale_factor env s1' 0
        + env (Cparameter "AMPL") * env (Cparameter "const_dr"))%R.
Proof.
  intros R1 R2 H1 H2.
  assert (F1 : In "SinhSpherical" spherical_systems) by (cbn; tauto).
  assert (F2 : In "SinhSphericalv2" spherical_systems) by (cbn; tauto).
  destruct (selected_spherical _ _ _ R1 F1 H1) as [_ ->].
  destruct (selected_spherical _ _ _ R2 F2 H2) as [_ ->].
  unfold sph_value, scale_factor.
  cbn [spherical_selection xxSph scalefactor_orthog nth].
  change (radius_of "SinhSpherical")
    with (sinh_law (Cparameter "AMPL") (Cparameter "SINHW") xx0p).
  change (radius_of "SinhSphericalv2")
    with (Cparameter "AMPL"
          * (Cparameter "const_dr" * xx0p
             + sinh_ratio (Cparameter "SINHW") xx0p))%E.
  rewrite eval_sinh_law, eval_diff_sinh_law by reflexivity.
  cbn [eval diff].
  rewrite eval_sinh_ratio, eval_diff_sinh_ratio by reflexivity.
  change (symbol_eqb (Cparameter "AMPL") xx0p) with false.
  change (symbol_eqb (Cparameter "const_dr") xx0p) with false.
  rewrite symbol_eqb_refl. cbn [eval].
  split; unfold Rdiv; ring.
Qed.

(** X14: in SinhCylindrical coordinates with [SINHWZ] and [SINHWRHO] not
    zero, the height [xxCart[2]] is an odd function of [xx2] that takes
    the values [-AMPLZ] and [AMPLZ] at the bounds [-1.0] and [1.0] of
    [xx2], and the cylindrical radius [scalefactor_orthog[1]] is 0 and
    [AMPLRHO] at the bounds [0.0] and [1.0] of [xx0]. *)
Theorem sinh_cylindrical_height_range
    (s s' : state) (env : symbol -> R) (t : R) :
  reachable s -> SetActiveCoordinateSystem "SinhCylindrical" s = Ok s' ->
  env (Cparameter "SINHWZ") <> 0%R -> env (Cparameter "SINHWRHO") <> 0%R ->
  exists mn mx,
    domain_bounds "SinhCylindrical" s = Ok (Some mn, Some mx)
    /\ map (bound_value env) mn = [Some 0; Some 0; Some (-1)]%R
    /\ map (bound_value env) mx = [Some 1; Some (2 * PI); Some 1]%R
    /\ cart_value (update env xx2s (- t)) s' 2
       = (- cart_value (update env xx2s t) s' 2)%R
    /\ (env xx2s = (-1)%R ->
        cart_value env s' 2 = (- env (Cparameter "AMPLZ"))%R)
    /\ (env xx2s = 1%R -> cart_value env s' 2 = env (Cparameter "AMPLZ"))
    /\ (env xx0p = 0%R -> scale_factor env s' 1 = 0%R)
    /\ (env xx0p = 1%R -> scale_factor env s' 1 = env (Cparameter "AMPLRHO")).
Proof.
  intros R H HZ HR.
  assert (F : In "SinhCylindrical" cylindrical_systems) by (cbn; tauto).
  destruct (selected_cylindrical _ _ _ R F H) as [_ [p1 ->]].
  apply reachable_canonical in R. canonical_state s.
  do 2 eexists. split; [vm_compute; reflexivity|].
  split; [reflexivity|]. split; [reflexivity|].
  unfold cart_value, scale_factor.
  cbn [cylindrical_selection xxCart scalefactor_orthog nth].
  change (height_of "SinhCylindrical")
    with (sinh_law (Cparameter "AMPLZ") (Cparameter "SINHWZ") xx2s).
  change (rho_of "SinhCylindrical")
    with (sinh_law (Cparameter "AMPLRHO") (Cparameter "SINHWRHO") xx0p).
  split.
  { rewrite !eval_sinh_law. unfold update. cbn.
    replace (- t / env (Cparameter "SINHWZ"))%R
      with (- (t / env (Cparameter "SINHWZ")))%R by (unfold Rdiv; ring).
    rewrite sinh_odd. unfold Rdiv. ring. }
  split; [apply sinh_law_at_minus_one; exact HZ|].
  split; [apply sinh_law_at_one; exact HZ|].
  split; [apply sinh_law_at_zero|apply sinh_law_at_one; exact HR].
Qed.

(** X15: in the SymTP and SinhSymTP systems the surfaces of constant
    [xx0] are spheroids and the surfaces of constant [xx1] are
    hyperboloids with the same focal distance [bScale]:
    [(x^2+y^2)/AA^2 + z^2/(AA^2+bScale^2) = 1] and
    [(x^2+y^2)/sin(xx1)^2 - z^2/cos(xx1)^2 = -bScale^2], with the
    denominators cleared. *)
Theorem symtp_confocal_surfaces
    (n : string) (s s' : state) (env : symbol -> R) :
  reachable s -> In n symtp_systems ->
  SetActiveCoordinateSystem n s = Ok s' ->
  let x := cart_value env s' 0 in
  let y := cart_value env s' 1 in
  let z := cart_value env s' 2 in
  let a := eval env (AA_of n) in
  let b := env (symbols "bScale" true) in
  let th := env (nth 1 (xx s') xx3s) in
  ((x * x + y * y) * (a * a + b * b) + z * z * (a * a)
   = (a * a) * (a * a + b * b))%R
  /\ ((x * x + y * y) * (cos th * cos th) - z * z * (sin th * sin th)
      = - (b * b) * (sin th * sin th) * (cos th * cos th))%R.
Proof.
  intros R F H.
  destruct (selected_symtp _ _ _ R F H) as [_ ->].
  unfold cart_value. cbn [symtp_selection xx xxCart nth eval].
  generalize (eval env (AA_of n)). intros a.
  rewrite !powerRZ_2.
  assert (Hq : (0 <= a * a + env (symbols "bScale" true)
                              * env (symbols "bScale" true))%R) by nra.
  pose proof (sqrt_sqrt _ Hq) as HV.
  set (V := sqrt (a * a + env (symbols "bScale" true)
                          * env (symbols "bScale" true))) in *.
  set (b := env (symbols "bScale" true)) in *.
  trig_vars. clearbody V b. split; nsatz.
Qed.

(** X16: for every supported name the call computes three lower and
    three upper bounds, each of which denotes a number, but binds them to
    locals: after the call the module-level [xxmin] and [xxmax] are still
    empty. *)
Theorem bounds_computed_but_not_stored (n : string) (s s' : state) :
  reachable s -> In n supported -> SetActiveCoordinateSystem n s = Ok s' ->
  (exists mn mx,
     domain_bounds n s = Ok (Some mn, Some mx)
     /\ List.length mn = 3%nat /\ List.length mx = 3%nat
     /\ forall env b, In b (mn ++ mx) -> bound_value env b <> None)
  /\ xxmin s' = [] /\ xxmax s' = [].
Proof.
  intros R S H.
  pose proof (reachable_canonical _ R) as C.
  pose proof (canonical_step _ _ _ C H) as C'.
  split.
  - clear H C'. canonical_state s.
    supported_cases S; do 2 eexists; (split; [vm_compute; reflexivity|]);
      (split; [reflexivity|]); (split; [reflexivity|]);
      intros env b Hb; cbn in Hb;
      repeat match goal with H : _ \/ _ |- _ => destruct H as [<-|H] end;
      try contradiction; discriminate.
  - canonical_state s'. split; reflexivity.
Qed.

(** ** Instances *)

Lemma identity_simplify_sound :
  forall env e, respects env -> eval env ((fun e => e) e) = eval env e.
Proof. reflexivity. Qed.

Lemma reference_metric_outcomes_witness :
  In "Spherical" supported
  /\ ~ three_slots (with_xxCart [] initial_state)
  /\ SetActiveCoordinateSystem "Spherical" (with_xxCart [] initial_state)
     = IndexError.
Proof.
  assert (S : In "Spherical" supported) by (cbn; tauto).
  assert (N : ~ three_slots (with_xxCart [] initial_state)).
  { unfold three_slots. cbn. lia. }
  split; [exact S|]. split; [exact N|].
  exact (proj2 (proj2 (reference_metric_outcomes "Spherical"
                         (with_xxCart [] initial_state))) S N).
Defined.

Lemma selection_forgets_history_witness :
  exists s1 s' s0,
    SetActiveCoordinateSystem "SymTP" initial_state = Ok s1
    /\ reachable s1 /\ In "Cartesian" supported
    /\ SetActiveCoordinateSystem "Cartesian" s1 = Ok s'
    /\ SetActiveCoordinateSystem "Cartesian" initial_state = Ok s0
    /\ forget_state s' = forget_state s0.
Proof.
  assert (S : In "Cartesian" supported) by (cbn; tauto).
  destruct (SetActiveCoordinateSystem "SymTP" initial_state)
    as [s1| |] eqn:E; try (vm_compute in E; discriminate E).
  assert (R : reachable s1) by exact (reach_call _ _ _ reach_import E).
  destruct (selection_forgets_history "Cartesian" s1 R S)
    as (s' & s0 & H1 & H2 & H3).
  exists s1, s', s0. repeat split; assumption.
Defined.

Lemma components_use_current_coordinates_witness :
  exists s1,
    SetActiveCoordinateSystem "SinhCylindricalv2" initial_state = Ok s1
    /\ reachable s1
    /\ forall e x, In e (components s1) -> In x (free_symbols e) ->
         is_coordinate x = true -> In x (firstn 3 (xx s1)).
Proof.
  destruct (SetActiveCoordinateSystem "SinhCylindricalv2" initial_state)
    as [s1| |] eqn:E; try (vm_compute in E; discriminate E).
  assert (R : reachable s1) by exact (reach_call _ _ _ reach_import E).
  exists s1. split; [reflexivity|]. split; [exact R|].
  exact (components_use_current_coordinates s1 R).
Defined.

Lemma radius_is_cartesian_distance_witness :
  exists s',
    reachable initial_state /\ In "SinhSymTP" supported
    /\ SetActiveCoordinateSystem "SinhSymTP" initial_state = Ok s'
    /\ (sph_value env_ones s' 0 * sph_value env_ones s' 0
        = dot3 (cart_value env_ones s') (cart_value env_ones s'))%R.
Proof.
  assert (S : In "SinhSymTP" supported) by (cbn; tauto).
  destruct (SetActiveCoordinateSystem "SinhSymTP" initial_state)
    as [s'| |] eqn:E; try (vm_compute in E; discriminate E).
  exists s'. split; [exact reach_import|]. split; [exact S|].
  split; [reflexivity|].
  exact (proj1 (radius_is_cartesian_distance "SinhSymTP" initial_state s'
                  env_ones reach_import S E)).
Defined.

Lemma azimuth_is_cartesian_angle_witness :
  exists s',
    reachable initial_state /\ In "Cartesian" supported
    /\ SetActiveCoordinateSystem "Cartesian" initial_state = Ok s'
    /\ (cart_value env_ones s' 0 * sin (sph_value env_ones s' 2)
        = cart_value env_ones s' 1 * cos (sph_value env_ones s' 2))%R.
Proof.
  assert (S : In "Cartesian" supported) by (cbn; tauto).
  destruct (SetActiveCoordinateSystem "Cartesian" initial_state)
    as [s'| |] eqn:E; try (vm_compute in E; discriminate E).
  exists s'. split; [exact reach_import|]. split; [exact S|].
  split; [reflexivity|].
  exact (proj1 (azimuth_is_cartesian_angle "Cartesian" initial_state s'
                  env_ones reach_import S E)).
Defined.

Lemma unit_vectors_over_scale_factor_witness :
  exists s' U,
    (forall env e, respects env -> eval env ((fun e => e) e) = eval env e)
    /\ reachable initial_state /\ In "Spherical" supported
    /\ SetActiveCoordinateSystem "Spherical" initial_state = Ok s'
    /\ respects env_ones /\ (0 < 3)%nat
    /\ (0 < scale_factor env_ones s' 0)%R
    /\ UnitVectors3D (fun e => e) s' = Ok (U, s')
    /\ row_norm env_ones s' 0 = scale_factor env_ones s' 0.
Proof.
  assert (S : In "Spherical" supported) by (cbn; tauto).
  destruct (SetActiveCoordinateSystem "Spherical" initial_state)
    as [s'| |] eqn:E; try (vm_compute in E; discriminate E).
  assert (P : (0 < scale_factor env_ones s' 0)%R).
  { pose proof E as E'. vm_compute in E'. injection E' as <-.
    unfold scale_factor. cbn. lra. }
  assert (H0 : (0 < 3)%nat) by lia.
  destruct (unit_vectors_over_scale_factor (fun e => e)
              identity_simplify_sound "Spherical" initial_state s' env_ones
              0 reach_import S E respects_env_ones H0 P)
    as (U & HU & HN & _).
  exists s', U.
  split; [exact identity_simplify_sound|]. split; [exact reach_import|].
  split; [exact S|]. split; [reflexivity|].
  split; [exact respects_env_ones|]. split; [exact H0|].
  split; [exact P|]. split; [exact HU | exact HN].
Defined.

Lemma unit_vectors_spherical_witness :
  exists s' U,
    (forall env e, respects env -> eval env ((fun e => e) e) = eval env e)
    /\ reachable initial_state /\ In "Spherical" spherical_systems
    /\ SetActiveCoordinateSystem "Spherical" initial_state = Ok s'
    /\ respects env_ones /\ (0 < 3)%nat /\ (2 < 3)%nat
    /\ (0 < scale_factor env_ones s' 0)%R
    /\ UnitVectors3D (fun e => e) s' = Ok (U, s')
    /\ row_values env_ones U 0 2
       = eval env_ones (table_get (xxhat_spherical s') 0 2).
Proof.
  assert (S : In "Spherical" spherical_systems) by (cbn; tauto).
  destruct (SetActiveCoordinateSystem "Spherical" initial_state)
    as [s'| |] eqn:E; try (vm_compute in E; discriminate E).
  assert (P : (0 < scale_factor env_ones s' 0)%R).
  { pose proof E as E'. vm_compute in E'. injection E' as <-.
    unfold scale_factor. cbn. lra. }
  assert (H0 : (0 < 3)%nat) by lia. assert (H2 : (2 < 3)%nat) by lia.
  destruct (unit_vectors_spherical (fun e => e)
              identity_simplify_sound "Spherical" initial_state s' env_ones
              0 2 reach_import S E respects_env_ones H0 H2 P)
    as (U & HU & HV).
  exists s', U.
  split; [exact identity_simplify_sound|]. split; [exact reach_import|].
  split; [exact S|]. split; [reflexivity|].
  split; [exact respects_env_ones|]. split; [exact H0|]. split; [exact H2|].
  split; [exact P|]. split; [exact HU | exact HV].
Defined.

Lemma unit_vectors_cylindrical_witness :
  exists s' U,
    (forall env e, respects env -> eval env ((fun e => e) e) = eval env e)
    /\ reachable initial_state /\ In "Cylindrical" cylindrical_systems
    /\ SetActiveCoordinateSystem "Cylindrical" initial_state = Ok s'
    /\ respects env_ones /\ (2 < 3)%nat /\ (2 < 3)%nat
    /\ (0 < scale_factor env_ones s' 2)%R
    /\ UnitVectors3D (fun e => e) s' = Ok (U, s')
    /\ row_values env_ones U 2 2
       = eval env_ones (table_get (xxhat_cylindrical s') 2 2).
Proof.
  assert (S : In "Cylindrical" cylindrical_systems) by (cbn; tauto).
  destruct (SetActiveCoordinateSystem "Cylindrical" initial_state)
    as [s'| |] eqn:E; try (vm_compute in E; discriminate E).
  assert (P : (0 < scale_factor env_ones s' 2)%R).
  { pose proof E as E'. vm_compute in E'. injection E' as <-.
    unfold scale_factor. cbn. lra. }
  assert (H2 : (2 < 3)%nat) by lia.
  destruct (unit_vectors_cylindrical (fun e => e)
              identity_simplify_sound "Cylindrical" initial_state s' env_ones
              2 2 reach_import S E respects_env_ones H2 H2 P)
    as (U & HU & HV).
  exists s', U.
  split; [exact identity_simplify_sound|]. split; [exact reach_import|].
  split; [exact S|]. split; [reflexivity|].
  split; [exact respects_env_ones|]. split; [exact H2|]. split; [exact H2|].
  split; [exact P|]. split; [exact HU | exact HV].
Defined.

Lemma unit_vectors_symtp_witness :
  exists s' U,
    (forall env e, respects env -> eval env ((fun e => e) e) = eval env e)
    /\ reachable initial_state /\ In "SymTP" symtp_systems
    /\ SetActiveCoordinateSystem "SymTP" initial_state = Ok s'
    /\ respects env_ones /\ (1 < 3)%nat /\ (2 < 3)%nat
    /\ (0 < scale_factor env_ones s' 1)%R
    /\ UnitVectors3D (fun e => e) s' = Ok (U, s')
    /\ row_values env_ones U 1 2
       = eval env_ones (table_get (xxhat_symtp "SymTP" s') 1 2).
Proof.
  assert (S : In "SymTP" symtp_systems) by (cbn; tauto).
  destruct (SetActiveCoordinateSystem "SymTP" initial_state)
    as [s'| |] eqn:E; try (vm_compute in E; discriminate E).
  assert (P : (0 < scale_factor env_ones s' 1)%R).
  { pose proof E as E'. vm_compute in E'. injection E' as <-.
    unfold scale_factor. cbn [scalefactor_orthog nth eval].
    apply sqrt_lt_R0. rewrite !powerRZ_2. unfold env_ones.
    pose proof (Rle_0_sqr (1 * sin 1)) as Q. unfold Rsqr in Q. lra. }
  assert (H1 : (1 < 3)%nat) by lia. assert (H2 : (2 < 3)%nat) by lia.
  destruct (unit_vectors_symtp (fun e => e)
              identity_simplify_sound "SymTP" initial_state s' env_ones
              1 2 reach_import S E respects_env_ones H1 H2 P)
    as (U & HU & HV).
  exists s', U.
  split; [exact identity_simplify_sound|]. split; [exact reach_import|].
  split; [exact S|]. split; [reflexivity|].
  split; [exact respects_env_ones|]. split; [exact H1|]. split; [exact H2|].
  split; [exact P|]. split; [exact HU | exact HV].
Defined.

Lemma unit_vectors_cartesian_witness :
  exists s' U,
    (forall env e, respects env -> eval env ((fun e => e) e) = eval env e)
    /\ reachable initial_state
    /\ SetActiveCoordinateSystem "Cartesian" initial_state = Ok s'
    /\ respects env_ones /\ (1 < 3)%nat /\ (1 < 3)%nat
    /\ UnitVectors3D (fun e => e) s' = Ok (U, s')
    /\ row_values env_ones U 1 1
       = eval env_ones (table_get xxhat_cartesian 1 1).
Proof.
  destruct (SetActiveCoordinateSystem "Cartesian" initial_state)
    as [s'| |] eqn:E; try (vm_compute in E; discriminate E).
  assert (H1 : (1 < 3)%nat) by lia.
  destruct (unit_vectors_cartesian (fun e => e)
              identity_simplify_sound initial_state s' env_ones
              1 1 reach_import E respects_env_ones H1 H1)
    as (U & HU & HV).
  exists s', U.
  split; [exact identity_simplify_sound|]. split; [exact reach_import|].
  split; [reflexivity|].
  split; [exact respects_env_ones|]. split; [exact H1|]. split; [exact H1|].
  split; [exact HU | exact HV].
Defined.

Lemma env_ones_SINHW : env_ones (Cparameter "SINHW") <> 0%R.
Proof. unfold env_ones. lra. Qed.

Lemma sinh_spherical_radius_range_witness :
  exists s',
    reachable initial_state
    /\ SetActiveCoordinateSystem "SinhSpherical" initial_state = Ok s'
    /\ env_ones (Cparameter "SINHW") <> 0%R
    /\ (env_ones (nth 0 (xx s') xx3s) = 1%R ->
        sph_value env_ones s' 0 = env_ones (Cparameter "AMPL")).
Proof.
  destruct (SetActiveCoordinateSystem "SinhSpherical" initial_state)
    as [s'| |] eqn:E; try (vm_compute in E; discriminate E).
  exists s'. split; [exact reach_import|]. split; [reflexivity|].
  split; [exact env_ones_SINHW|].
  destruct (sinh_spherical_radius_range initial_state s' env_ones
              reach_import E env_ones_SINHW)
    as (mn & mx & _ & _ & _ & _ & H & _).
  exact H.
Defined.

Lemma sinh_spherical_v2_adds_linear_term_witness :
  exists s1' s2',
    reachable initial_state
    /\ SetActiveCoordinateSystem "SinhSpherical" initial_state = Ok s1'
    /\ SetActiveCoordinateSystem "SinhSphericalv2" initial_state = Ok s2'
    /\ scale_factor env_ones s2' 0
       = (scale_factor env_ones s1' 0
          + env_ones (Cparameter "AMPL") * env_ones (Cparameter "const_dr"))%R.
Proof.
  destruct (SetActiveCoordinateSystem "SinhSpherical" initial_state)
    as [s1'| |] eqn:E1; try (vm_compute in E1; discriminate E1).
  destruct (SetActiveCoordinateSystem "SinhSphericalv2" initial_state)
    as [s2'| |] eqn:E2; try (vm_compute in E2; discriminate E2).
  exists s1', s2'. split; [exact reach_import|].
  split; [reflexivity|]. split; [reflexivity|].
  exact (proj2 (sinh_spherical_v2_adds_linear_term initial_state
                  initial_state s1' s2' env_ones reach_import reach_import
                  E1 E2)).
Defined.

Lemma sinh_cylindrical_height_range_witness :
  exists s',
    reachable initial_state
    /\ SetActiveCoordinateSystem "SinhCylindrical" initial_state = Ok s'
    /\ env_ones (Cparameter "SINHWZ") <> 0%R
    /\ env_ones (Cparameter "SINHWRHO") <> 0%R
    /\ cart_value (update env_ones xx2s (- 1)) s' 2
       = (- cart_value (update env_ones xx2s 1) s' 2)%R.
Proof.
  assert (Z : env_ones (Cparameter "SINHWZ") <> 0%R)
    by (unfold env_ones; lra).
  assert (W : env_ones (Cparameter "SINHWRHO") <> 0%R)
    by (unfold env_ones; lra).
  destruct (SetActiveCoordinateSystem "SinhCylindrical" initial_state)
    as [s'| |] eqn:E; try (vm_compute in E; discriminate E).
  exists s'. split; [exact reach_import|]. split; [reflexivity|].
  split; [exact Z|]. split; [exact W|].
  destruct (sinh_cylindrical_height_range initial_state s' env_ones 1
              reach_import E Z W)
    as (mn & mx & _ & _ & _ & H & _).
  exact H.
Defined.

Lemma symtp_confocal_surfaces_witness :
  exists s',
    reachable initial_state /\ In "SymTP" symtp_systems
    /\ SetActiveCoordinateSystem "SymTP" initial_state = Ok s'
    /\ ((cart_value env_ones s' 0 * cart_value env_ones s' 0
         + cart_value env_ones s' 1 * cart_value env_ones s' 1)
        * (eval env_ones (AA_of "SymTP") * eval env_ones (AA_of "SymTP")
           + env_ones (symbols "bScale" true)
             * env_ones (symbols "bScale" true))
        + cart_value env_ones s' 2 * cart_value env_ones s' 2
          * (eval env_ones (AA_of "SymTP") * eval env_ones (AA_of "SymTP"))
        = eval env_ones (AA_of "SymTP") * eval env_ones (AA_of "SymTP")
          * (eval env_ones (AA_of "SymTP") * eval env_ones (AA_of "SymTP")
             + env_ones (symbols "bScale" true)
               * env_ones (symbols "bScale" true)))%R.
Proof.
  assert (S : In "SymTP" symtp_systems) by (cbn; tauto).
  destruct (SetActiveCoordinateSystem "SymTP" initial_state)
    as [s'| |] eqn:E; try (vm_compute in E; discriminate E).
  exists s'. split; [exact reach_import|]. split; [exact S|].
  split; [reflexivity|].
  exact (proj1 (symtp_confocal_surfaces "SymTP" initial_state s' env_ones
                  reach_import S E)).
Defined.

Lemma bounds_computed_but_not_stored_witness :
  exists s',
    reachable initial_state /\ In "Cylindrical" supported
    /\ SetActiveCoordinateSystem "Cylindrical" initial_state = Ok s'
    /\ xxmin s' = [] /\ xxmax s' = [].
Proof.
  assert (S : In "Cylindrical" supported) by (cbn; tauto).
  destruct (SetActiveCoordinateSystem "Cylindrical" initial_state)
    as [s'| |] eqn:E; try (vm_compute in E; discriminate E).
  exists s'. split; [exact reach_import|]. split; [exact S|].
  split; [reflexivity|].
  exact (proj2 (bounds_computed_but_not_stored "Cylindrical" initial_state
                  s' reach_import S E)).
Defined.

(** ** The metric, the volume element and the derivatives *)

(** X17: as the header of the module says of [scalefactor_orthog], the
    metric that the map from [xx] to [xxCart] induces is diagonal and its
    diagonal components are the squares of the scale factors, for every
    supported system at every point that respects the assumptions of the
    symbols. *)
Theorem metric_is_diagonal
    (n : string) (s s' : state) (env : symbol -> R) (i k : nat) :
  reachable s -> In n supported -> SetActiveCoordinateSystem n s = Ok s' ->
  respects env -> (i < 3)%nat -> (k < 3)%nat ->
  metric env s' i k
  = if Nat.eqb i k then (scale_factor env s' i * scale_factor env s' i)%R
    else 0%R.
Proof.
  intros R S H He Hi Hk.
  destruct (selected_metric env n s s' R S H He) as [O Q].
  unfold metric. destruct (Nat.eqb_spec i k) as [<-|N].
  - symmetry. apply Q. exact Hi.
  - apply O; assumption.
Qed.

(** X18: for every supported system the square of the determinant of
    the Jacobian of the map from [xx] to [xxCart] is the square of the
    product of the three scale factors: up to sign, the volume element is
    [scalefactor_orthog[0]*scalefactor_orthog[1]*scalefactor_orthog[2]]. *)
Theorem volume_element
    (n : string) (s s' : state) (env : symbol -> R) :
  reachable s -> In n supported -> SetActiveCoordinateSystem n s = Ok s' ->
  respects env ->
  (jacobian_determinant env s' * jacobian_determinant env s'
   = (scale_factor env s' 0 * scale_factor env s' 1 * scale_factor env s' 2)
     * (scale_factor env s' 0 * scale_factor env s' 1
        * scale_factor env s' 2))%R.
Proof.
  intros R S H He.
  destruct (selected_metric env n s s' R S H He) as [O Q].
  pose proof (Q 0%nat ltac:(lia)) as Q0.
  pose proof (Q 1%nat ltac:(lia)) as Q1.
  pose proof (Q 2%nat ltac:(lia)) as Q2.
  pose proof (O 0%nat 1%nat ltac:(lia) ltac:(lia) ltac:(lia)) as O01.
  pose proof (O 0%nat 2%nat ltac:(lia) ltac:(lia) ltac:(lia)) as O02.
  pose proof (O 1%nat 2%nat ltac:(lia) ltac:(lia) ltac:(lia)) as O12.
  pose proof (O 1%nat 0%nat ltac:(lia) ltac:(lia) ltac:(lia)) as O10.
  pose proof (O 2%nat 0%nat ltac:(lia) ltac:(lia) ltac:(lia)) as O20.
  pose proof (O 2%nat 1%nat ltac:(lia) ltac:(lia) ltac:(lia)) as O21.
  clear O Q.
  set (G := fun i k => dot3 (jacobian env s' i) (jacobian env s' k)) in *.
  transitivity
    (G 0%nat 0%nat * (G 1%nat 1%nat * G 2%nat 2%nat
                      - G 1%nat 2%nat * G 2%nat 1%nat)
     - G 0%nat 1%nat * (G 1%nat 0%nat * G 2%nat 2%nat
                        - G 1%nat 2%nat * G 2%nat 0%nat)
     + G 0%nat 2%nat * (G 1%nat 0%nat * G 2%nat 1%nat
                        - G 1%nat 1%nat * G 2%nat 0%nat))%R.
  - unfold G, jacobian_determinant, dot3. ring.
  - unfold G. rewrite O01, O02, O12, O10, O20, O21, <- Q0, <- Q1, <- Q2.
    ring.
Qed.

(** X19: for every supported system, at a point that respects the
    assumptions of the symbols and where the free parameters are positive,
    the value of [diff(xxCart[j], xx[i])], which [UnitVectors3D] divides
    by the norm, is the partial derivative of the value of [xxCart[j]]
    with respect to the value of [xx[i]]. *)
Theorem jacobian_entries_are_partial_derivatives
    (n : string) (s s' : state) (env : symbol -> R) (i j : nat) :
  reachable s -> In n supported -> SetActiveCoordinateSystem n s = Ok s' ->
  respects env -> parameters_positive env -> (i < 3)%nat -> (j < 3)%nat ->
  derivable_pt_lim
    (fun t => cart_value (update env (nth i (xx s') xx3s) t) s' j)
    (env (nth i (xx s') xx3s))
    (jacobian env s' i j).
Proof.
  intros R S H He HP Hi Hj.
  unfold cart_value. apply jacobian_is_derivative.
  exact (selected_smooth env n s s' j R S H He HP Hj).
Qed.

Lemma metric_is_diagonal_witness :
  exists s',
    reachable initial_state /\ In "SinhSymTP" supported
    /\ SetActiveCoordinateSystem "SinhSymTP" initial_state = Ok s'
    /\ respects env_ones /\ (0 < 3)%nat /\ (1 < 3)%nat
    /\ metric env_ones s' 0 1 = 0%R.
Proof.
  assert (S : In "SinhSymTP" supported) by (cbn; tauto).
  destruct (SetActiveCoordinateSystem "SinhSymTP" initial_state)
    as [s'| |] eqn:E; try (vm_compute in E; discriminate E).
  assert (H0 : (0 < 3)%nat) by lia. assert (H1 : (1 < 3)%nat) by lia.
  exists s'. split; [exact reach_import|]. split; [exact S|].
  split; [reflexivity|]. split; [exact respects_env_ones|].
  split; [exact H0|]. split; [exact H1|].
  exact (metric_is_diagonal "SinhSymTP" initial_state s' env_ones 0 1
           reach_import S E respects_env_ones H0 H1).
Defined.

Lemma volume_element_witness :
  exists s',
    reachable initial_state /\ In "SinhCylindricalv2" supported
    /\ SetActiveCoordinateSystem "SinhCylindricalv2" initial_state = Ok s'
    /\ respects env_ones
    /\ (jacobian_determinant env_ones s' * jacobian_determinant env_ones s'
        = (scale_factor env_ones s' 0 * scale_factor env_ones s' 1
           * scale_factor env_ones s' 2)
          * (scale_factor env_ones s' 0 * scale_factor env_ones s' 1
             * scale_factor env_ones s' 2))%R.
Proof.
  assert (S : In "SinhCylindricalv2" supported) by (cbn; tauto).
  destruct (SetActiveCoordinateSystem "SinhCylindricalv2" initial_state)
    as [s'| |] eqn:E; try (vm_compute in E; discriminate E).
  exists s'. split; [exact reach_import|]. split; [exact S|].
  split; [reflexivity|]. split; [exact respects_env_ones|].
  exact (volume_element "SinhCylindricalv2" initial_state s' env_ones
           reach_import S E respects_env_ones).
Defined.

Lemma jacobian_entries_are_partial_derivatives_witness :
  exists s',
    reachable initial_state /\ In "SinhSpherical" supported
    /\ SetActiveCoordinateSystem "SinhSpherical" initial_state = Ok s'
    /\ respects env_ones /\ parameters_positive env_ones
    /\ (0 < 3)%nat /\ (2 < 3)%nat
    /\ derivable_pt_lim
         (fun t => cart_value (update env_ones (nth 0 (xx s') xx3s) t) s' 2)
         (env_ones (nth 0 (xx s') xx3s))
         (jacobian env_ones s' 0 2).
Proof.
  assert (S : In "SinhSpherical" supported) by (cbn; tauto).
  destruct (SetActiveCoordinateSystem "SinhSpherical" initial_state)
    as [s'| |] eqn:E; try (vm_compute in E; discriminate E).
  assert (H0 : (0 < 3)%nat) by lia. assert (H2 : (2 < 3)%nat) by lia.
  exists s'. split; [exact reach_import|]. split; [exact S|].
  split; [reflexivity|]. split; [exact respects_env_ones|].
  split; [exact parameters_positive_env_ones|].
  split; [exact H0|]. split; [exact H2|].
  exact (jacobian_entries_are_partial_derivatives "SinhSpherical"
           initial_state s' env_ones 0 2 reach_import S E
           respects_env_ones parameters_positive_env_ones H0 H2).
Defined.
